(** * Table-driven CRC update functions of [_crcfunext.c]

    A shallow embedding of the ten low level CRC functions of crcmod's C
    extension ([_crc8], [_crc8r], [_crc16], ..., [_crc64r]) and the proofs
    of their documented properties.

    Integers of the C program are values of [Z]; every place where the C
    type of an expression truncates is written out with the conversions
    [UINT8] .. [UINT64].  The two buffers handed over by the argument
    parser (the input data and the table) are lists of bytes; the table is
    read through a pointer to 2, 4 or 8 byte integers. *)

From Stdlib Require Import String.
From Stdlib.Strings Require Import Byte.
From Stdlib Require Import ZArith List Lia Bool Btauto.
From coqutil Require Import Z.bitblast.
Import ListNotations.

Local Open Scope Z_scope.

(** ** C integer types

    [typedef unsigned char UINT8; typedef unsigned short UINT16;
     typedef unsigned int UINT32; typedef unsigned long long UINT64;]
    [init_crcfunext] aborts unless their sizes are 1, 2, 4 and 8 bytes.
    The definitions below are the conversions to these types. *)

Definition UINT8 (x : Z) : Z := x mod 2 ^ 8.
Definition UINT16 (x : Z) : Z := x mod 2 ^ 16.
Definition UINT32 (x : Z) : Z := x mod 2 ^ 32.
Definition UINT64 (x : Z) : Z := x mod 2 ^ 64.

(** [(long)x], for the value handed to [PyInt_FromLong].  The type [long]
    is the one of the LP64 platforms (x86-64 Linux): 64 bits, two's
    complement. *)
Definition long_bits : Z := 64.

Definition to_long (x : Z) : Z :=
  (x + 2 ^ (long_bits - 1)) mod 2 ^ long_bits - 2 ^ (long_bits - 1).

(** [#define BYTE0(x) ((UINT8)(x))], [#define BYTE1(x) ((UINT8)((x) >> 8))],
    and so on. *)

Definition BYTE0 (x : Z) : Z := UINT8 x.
Definition BYTE1 (x : Z) : Z := UINT8 (Z.shiftr x 8).
Definition BYTE2 (x : Z) : Z := UINT8 (Z.shiftr x 16).
Definition BYTE3 (x : Z) : Z := UINT8 (Z.shiftr x 24).
Definition BYTE7 (x : Z) : Z := UINT8 (Z.shiftr x 56).

(** ** Buffers *)

(** Value of one byte of a buffer, as an [UINT8]. *)
Definition byte_val (b : byte) : Z := Z.of_N (Byte.to_N b).

(** The table arrives as a string of bytes and is read through a pointer
    to [UINT8], [UINT16], [UINT32] or [UINT64]: an entry is the integer the
    machine forms from [size] consecutive bytes, in its own byte order. *)
Inductive byte_order := LittleEndian | BigEndian.

Fixpoint le_combine (bs : list byte) : Z :=
  match bs with
  | [] => 0
  | b :: rest => Z.lor (byte_val b) (Z.shiftl (le_combine rest) 8)
  end.

Definition decode (bo : byte_order) (bs : list byte) : Z :=
  match bo with
  | LittleEndian => le_combine bs
  | BigEndian => le_combine (rev bs)
  end.

(** [table[i]] for a table of [size]-byte entries.  [None] is a read that
    is not wholly inside the buffer. *)
Definition load (bo : byte_order) (size : nat) (table : list byte) (i : Z)
  : option Z :=
  if i <? 0 then None
  else
    let bs := firstn size (skipn (Z.to_nat i * size) table) in
    if (length bs =? size)%nat then Some (decode bo bs) else None.

(** ** Observable steps

    Every read of the two buffers is recorded, in program order. *)
Inductive event :=
| ReadData (offset : nat)    (* [*data], [offset] bytes after the start *)
| ReadTable (index : Z).     (* [table[index]] *)

(** ** The update loop

    All ten functions run the same loop
    [while (dataLen--) { crc = table[INDEX] ^ SHIFTED; data++; }]
    and differ in the entry size of the table, in the index expression and
    in the way the table entry and the old register are combined. *)

Record loop_state := mkLoop {
  st_dataLen : Z;          (* [Py_ssize_t dataLen] *)
  st_data : nat;           (* offset of the pointer [data] in its buffer *)
  st_crc : Z;              (* the register [crc] *)
  st_trace : list event    (* reads performed so far *)
}.

Inductive step_result :=
| Continue (s : loop_state)   (* the body ran once *)
| Break (s : loop_state)      (* the test [dataLen--] found zero *)
| Fault.                      (* a read outside a buffer *)

Inductive exec :=
| Finished (iterations : nat) (s : loop_state)
| Undefined
| OutOfFuel.

Section Loop.
Variable bo : byte_order.
Variable size : nat.                  (* bytes per table entry *)
Variable index : Z -> Z -> Z.         (* [*data], register => table index *)
Variable combine : Z -> Z -> Z.       (* table entry, register => register *)
Variable table : list byte.
Variable buf : list byte.             (* the buffer [data] points into *)

Definition loop_step (s : loop_state) : step_result :=
  if st_dataLen s =? 0 then
    Break (mkLoop (st_dataLen s - 1) (st_data s) (st_crc s) (st_trace s))
  else
    match nth_error buf (st_data s) with
    | None => Fault
    | Some b =>
        let i := index (byte_val b) (st_crc s) in
        match load bo size table i with
        | None => Fault
        | Some t =>
            Continue (mkLoop (st_dataLen s - 1) (S (st_data s))
                        (combine t (st_crc s))
                        (st_trace s ++ [ReadData (st_data s); ReadTable i]))
        end
    end.

Fixpoint while_loop (fuel : nat) (s : loop_state) : exec :=
  match fuel with
  | O => OutOfFuel
  | S fuel' =>
      match loop_step s with
      | Continue s' =>
          match while_loop fuel' s' with
          | Finished n s'' => Finished (S n) s''
          | r => r
          end
      | Break s' => Finished 0 s'
      | Fault => Undefined
      end
  end.
End Loop.

(** ** Results of a call *)

Inductive exception := PyExc_ValueError.

Inductive result :=
| Return (v : Z)                          (* a Python integer is returned *)
| Raise (exc : exception) (msg : string)  (* [PyErr_SetString]; [return NULL] *)
| Crash                                   (* a read outside a buffer *)
| Diverge.                                (* the loop did not come to an end *)

(** What a call yields: its result and the buffer reads it performed. *)
Definition outcome : Type := result * list event.

(** [return Py..._From...(conv crc)] once the loop is left. *)
Definition returning (conv : Z -> Z) (e : exec) : outcome :=
  match e with
  | Finished _ s => (Return (conv (st_crc s)), st_trace s)
  | Undefined => (Crash, [])
  | OutOfFuel => (Diverge, [])
  end.

(** ** The ten functions

    Each takes what [PyArg_ParseTuple] stored: the data buffer, the initial
    register and the table buffer ([dataLen] and [tableLen] are the lengths
    of the two buffers).  The loop is given one unit of fuel per byte of
    data and one for the last test.  [_crc8] to [_crc24r] return
    [PyInt_FromLong((long)crc)], the other four
    [PyLong_FromUnsignedLong(crc)] or [PyLong_FromUnsignedLongLong(crc)]. *)

Section Functions.
Variable bo : byte_order.

Definition _crc8 (data : list byte) (crc : Z) (table : list byte) : outcome :=
  let dataLen := Z.of_nat (length data) in
  let tableLen := Z.of_nat (length table) in
  if negb (tableLen =? 256) then
    (Raise PyExc_ValueError "invalid CRC table", [])
  else
    returning (fun crc => to_long crc)
      (while_loop bo 1
         (fun d crc => Z.lxor d crc)
         (fun t crc => t)
         table data (S (length data)) (mkLoop dataLen 0 crc [])).

Definition _crc8r (data : list byte) (crc : Z) (table : list byte) : outcome :=
  let dataLen := Z.of_nat (length data) in
  let tableLen := Z.of_nat (length table) in
  if negb (tableLen =? 256) then
    (Raise PyExc_ValueError "invalid CRC table", [])
  else
    returning (fun crc => to_long crc)
      (while_loop bo 1
         (fun d crc => Z.lxor d crc)
         (fun t crc => t)
         table data (S (length data)) (mkLoop dataLen 0 crc [])).

(* [UINT16] operands are promoted to [int]; the assignment to [crc]
   converts back. *)
Definition _crc16 (data : list byte) (crc : Z) (table : list byte) : outcome :=
  let dataLen := Z.of_nat (length data) in
  let tableLen := Z.of_nat (length table) in
  if negb (tableLen =? 256 * 2) then
    (Raise PyExc_ValueError "invalid CRC table", [])
  else
    returning (fun crc => to_long crc)
      (while_loop bo 2
         (fun d crc => Z.lxor d (BYTE1 crc))
         (fun t crc => UINT16 (Z.lxor t (Z.shiftl crc 8)))
         table data (S (length data)) (mkLoop dataLen 0 crc [])).

Definition _crc16r (data : list byte) (crc : Z) (table : list byte) : outcome :=
  let dataLen := Z.of_nat (length data) in
  let tableLen := Z.of_nat (length table) in
  if negb (tableLen =? 256 * 2) then
    (Raise PyExc_ValueError "invalid CRC table", [])
  else
    returning (fun crc => to_long crc)
      (while_loop bo 2
         (fun d crc => Z.lxor d (BYTE0 crc))
         (fun t crc => UINT16 (Z.lxor t (Z.shiftr crc 8)))
         table data (S (length data)) (mkLoop dataLen 0 crc [])).

(* [crc << 8] has type [unsigned int] and wraps at 32 bits; the register
   is masked when it is returned. *)
Definition _crc24 (data : list byte) (crc : Z) (table : list byte) : outcome :=
  let dataLen := Z.of_nat (length data) in
  let tableLen := Z.of_nat (length table) in
  if negb (tableLen =? 256 * 4) then
    (Raise PyExc_ValueError "invalid CRC table", [])
  else
    returning (fun crc => to_long (Z.land crc 0xFFFFFF))
      (while_loop bo 4
         (fun d crc => Z.lxor d (BYTE2 crc))
         (fun t crc => Z.lxor t (UINT32 (Z.shiftl crc 8)))
         table data (S (length data)) (mkLoop dataLen 0 crc [])).

(* [crc = crc & 0xFFFFFFU;] precedes the loop. *)
Definition _crc24r (data : list byte) (crc : Z) (table : list byte) : outcome :=
  let dataLen := Z.of_nat (length data) in
  let tableLen := Z.of_nat (length table) in
  if negb (tableLen =? 256 * 4) then
    (Raise PyExc_ValueError "invalid CRC table", [])
  else
    let crc := Z.land crc 0xFFFFFF in
    returning (fun crc => to_long crc)
      (while_loop bo 4
         (fun d crc => Z.lxor d (BYTE0 crc))
         (fun t crc => Z.lxor t (Z.shiftr crc 8))
         table data (S (length data)) (mkLoop dataLen 0 crc [])).

Definition _crc32 (data : list byte) (crc : Z) (table : list byte) : outcome :=
  let dataLen := Z.of_nat (length data) in
  let tableLen := Z.of_nat (length table) in
  if negb (tableLen =? 256 * 4) then
    (Raise PyExc_ValueError "invalid CRC table", [])
  else
    returning (fun crc => crc)
      (while_loop bo 4
         (fun d crc => Z.lxor d (BYTE3 crc))
         (fun t crc => Z.lxor t (UINT32 (Z.shiftl crc 8)))
         table data (S (length data)) (mkLoop dataLen 0 crc [])).

Definition _crc32r (data : list byte) (crc : Z) (table : list byte) : outcome :=
  let dataLen := Z.of_nat (length data) in
  let tableLen := Z.of_nat (length table) in
  if negb (tableLen =? 256 * 4) then
    (Raise PyExc_ValueError "invalid CRC table", [])
  else
    returning (fun crc => crc)
      (while_loop bo 4
         (fun d crc => Z.lxor d (BYTE0 crc))
         (fun t crc => Z.lxor t (Z.shiftr crc 8))
         table data (S (length data)) (mkLoop dataLen 0 crc [])).

(* [crc << 8] has type [unsigned long long] and wraps at 64 bits. *)
Definition _crc64 (data : list byte) (crc : Z) (table : list byte) : outcome :=
  let dataLen := Z.of_nat (length data) in
  let tableLen := Z.of_nat (length table) in
  if negb (tableLen =? 256 * 8) then
    (Raise PyExc_ValueError "invalid CRC table", [])
  else
    returning (fun crc => crc)
      (while_loop bo 8
         (fun d crc => Z.lxor d (BYTE7 crc))
         (fun t crc => Z.lxor t (UINT64 (Z.shiftl crc 8)))
         table data (S (length data)) (mkLoop dataLen 0 crc [])).

Definition _crc64r (data : list byte) (crc : Z) (table : list byte) : outcome :=
  let dataLen := Z.of_nat (length data) in
  let tableLen := Z.of_nat (length table) in
  if negb (tableLen =? 256 * 8) then
    (Raise PyExc_ValueError "invalid CRC table", [])
  else
    returning (fun crc => crc)
      (while_loop bo 8
         (fun d crc => Z.lxor d (BYTE0 crc))
         (fun t crc => Z.lxor t (Z.shiftr crc 8))
         table data (S (length data)) (mkLoop dataLen 0 crc [])).
End Functions.

(** ** The method table

    [methodTable] registers the ten functions under their names. *)

Inductive crcfun :=
| Crc8 | Crc8r | Crc16 | Crc16r | Crc24 | Crc24r | Crc32 | Crc32r | Crc64 | Crc64r.

Definition call (bo : byte_order) (f : crcfun)
  : list byte -> Z -> list byte -> outcome :=
  match f with
  | Crc8 => _crc8 bo     | Crc8r => _crc8r bo
  | Crc16 => _crc16 bo   | Crc16r => _crc16r bo
  | Crc24 => _crc24 bo   | Crc24r => _crc24r bo
  | Crc32 => _crc32 bo   | Crc32r => _crc32r bo
  | Crc64 => _crc64 bo   | Crc64r => _crc64r bo
  end.

Definition methodTable : list (string * crcfun) :=
  [("_crc8", Crc8); ("_crc8r", Crc8r); ("_crc16", Crc16); ("_crc16r", Crc16r);
   ("_crc24", Crc24); ("_crc24r", Crc24r); ("_crc32", Crc32);
   ("_crc32r", Crc32r); ("_crc64", Crc64); ("_crc64r", Crc64r)]%string.

(** Width of the CRC a function computes, and its bit order. *)
Definition width (f : crcfun) : Z :=
  match f with
  | Crc8 | Crc8r => 8
  | Crc16 | Crc16r => 16
  | Crc24 | Crc24r => 24
  | Crc32 | Crc32r => 32
  | Crc64 | Crc64r => 64
  end.

Definition reflected (f : crcfun) : bool :=
  match f with
  | Crc8r | Crc16r | Crc24r | Crc32r | Crc64r => true
  | _ => false
  end.

(** Bytes of one table entry for a width: the size of the type the table
    pointer of the function points to. *)
Definition entry_byte_size (W : Z) : Z :=
  if W =? 8 then 1 else if W =? 16 then 2 else if W =? 64 then 8 else 4.

(** Bits of the C type of the variable [crc]. *)
Definition carrier_bits (W : Z) : Z := 8 * entry_byte_size W.

Definition valid_table (f : crcfun) (table : list byte) : Prop :=
  Z.of_nat (length table) = 256 * entry_byte_size (width f).

(** The values the variable [crc] of a function can hold. *)
Definition is_register (f : crcfun) (r : Z) : Prop :=
  0 <= r < 2 ^ carrier_bits (width f).

(** Feeding the register returned by one call to the next call, over a
    sequence of data chunks. *)
Fixpoint updates (bo : byte_order) (f : crcfun) (table : list byte) (r : Z)
  (chunks : list (list byte)) : result :=
  match chunks with
  | [] => Return r
  | c :: rest =>
      match fst (call bo f c r table) with
      | Return v => updates bo f table v rest
      | other => other
      end
  end.

(** Offsets of the data bytes read, and indices of the table entries read,
    in a trace. *)
Fixpoint data_reads (tr : list event) : list nat :=
  match tr with
  | [] => []
  | ReadData o :: rest => o :: data_reads rest
  | ReadTable _ :: rest => data_reads rest
  end.

Fixpoint table_reads (tr : list event) : list Z :=
  match tr with
  | [] => []
  | ReadData _ :: rest => table_reads rest
  | ReadTable i :: rest => i :: table_reads rest
  end.

(** ** What distinguishes the ten functions

    The parts of a function that differ from one function to the other:
    the entry size of its table, the index and the new register computed in
    the loop body, the register the loop starts from and the value
    returned for the last register. *)

Record shape := mkShape {
  sh_size : nat;
  sh_index : Z -> Z -> Z;
  sh_combine : Z -> Z -> Z;
  sh_init : Z -> Z;
  sh_conv : Z -> Z
}.

Definition shape_of (f : crcfun) : shape :=
  match f with
  | Crc8 | Crc8r =>
      mkShape 1 (fun d crc => Z.lxor d crc) (fun t crc => t)
        (fun crc => crc) (fun crc => to_long crc)
  | Crc16 =>
      mkShape 2 (fun d crc => Z.lxor d (BYTE1 crc))
        (fun t crc => UINT16 (Z.lxor t (Z.shiftl crc 8)))
        (fun crc => crc) (fun crc => to_long crc)
  | Crc16r =>
      mkShape 2 (fun d crc => Z.lxor d (BYTE0 crc))
        (fun t crc => UINT16 (Z.lxor t (Z.shiftr crc 8)))
        (fun crc => crc) (fun crc => to_long crc)
  | Crc24 =>
      mkShape 4 (fun d crc => Z.lxor d (BYTE2 crc))
        (fun t crc => Z.lxor t (UINT32 (Z.shiftl crc 8)))
        (fun crc => crc) (fun crc => to_long (Z.land crc 0xFFFFFF))
  | Crc24r =>
      mkShape 4 (fun d crc => Z.lxor d (BYTE0 crc))
        (fun t crc => Z.lxor t (Z.shiftr crc 8))
        (fun crc => Z.land crc 0xFFFFFF) (fun crc => to_long crc)
  | Crc32 =>
      mkShape 4 (fun d crc => Z.lxor d (BYTE3 crc))
        (fun t crc => Z.lxor t (UINT32 (Z.shiftl crc 8)))
        (fun crc => crc) (fun crc => crc)
  | Crc32r =>
      mkShape 4 (fun d crc => Z.lxor d (BYTE0 crc))
        (fun t crc => Z.lxor t (Z.shiftr crc 8))
        (fun crc => crc) (fun crc => crc)
  | Crc64 =>
      mkShape 8 (fun d crc => Z.lxor d (BYTE7 crc))
        (fun t crc => Z.lxor t (UINT64 (Z.shiftl crc 8)))
        (fun crc => crc) (fun crc => crc)
  | Crc64r =>
      mkShape 8 (fun d crc => Z.lxor d (BYTE0 crc))
        (fun t crc => Z.lxor t (Z.shiftr crc 8))
        (fun crc => crc) (fun crc => crc)
  end.

(** The loop of a function, with the fuel left open. *)
Definition loop_of (bo : byte_order) (f : crcfun) (table data : list byte)
  (fuel : nat) (crc : Z) : exec :=
  let sh := shape_of f in
  while_loop bo (sh_size sh) (sh_index sh) (sh_combine sh) table data fuel
    (mkLoop (Z.of_nat (length data)) 0 (sh_init sh crc) []).

(** ** The loop as a fold

    The register after the bytes [bs], and the reads performed on the way,
    when every table read is inside the table. *)
Section Fold.
Variable bo : byte_order.
Variable size : nat.
Variable index : Z -> Z -> Z.
Variable combine : Z -> Z -> Z.
Variable table : list byte.

Definition entry (i : Z) : Z :=
  match load bo size table i with
  | Some t => t
  | None => 0
  end.

Definition next (c : Z) (b : byte) : Z :=
  combine (entry (index (byte_val b) c)) c.

Fixpoint reads (pos : nat) (c : Z) (bs : list byte) : list event :=
  match bs with
  | [] => []
  | b :: rest =>
      ReadData pos :: ReadTable (index (byte_val b) c)
        :: reads (S pos) (next c b) rest
  end.
End Fold.

Definition fold_of (bo : byte_order) (f : crcfun) (table : list byte)
  (c : Z) (bs : list byte) : Z :=
  let sh := shape_of f in
  fold_left (next bo (sh_size sh) (sh_index sh) (sh_combine sh) table) bs c.

(** The value a function returns for the last register [x] of its loop,
    as long as [(long)x] is [x]. *)
Definition conv_of (f : crcfun) (x : Z) : Z :=
  match f with
  | Crc24 => Z.land x 0xFFFFFF
  | _ => x
  end.

(** The reads a function performs on data [bs] from register [c], when
    every table read is inside the table. *)
Definition reads_of (bo : byte_order) (f : crcfun) (table : list byte)
  (c : Z) (bs : list byte) : list event :=
  let sh := shape_of f in
  reads bo (sh_size sh) (sh_index sh) (sh_combine sh) table 0 c bs.

(** ** The update functions as the specification words them

    The table is a sequence of 256 unsigned integers; an update folds the
    input bytes through one recurrence per bit order. *)
Module Spec.

(** The first [n] entries of a table buffer of [size]-byte entries. *)
Fixpoint chunks (size n : nat) (bs : list byte) : list (list byte) :=
  match n with
  | O => []
  | S n' => firstn size bs :: chunks size n' (skipn size bs)
  end.

Definition table_entries (bo : byte_order) (W : Z) (table : list byte)
  : list Z :=
  map (decode bo) (chunks (Z.to_nat (entry_byte_size W)) 256 table).

Definition lookup (entries : list Z) (i : Z) : Z :=
  nth (Z.to_nat i) entries 0.

(** Bits [W-8 .. W-1] and bits [0 .. 7] of a register. *)
Definition topByte (W crc : Z) : Z := Z.land (Z.shiftr crc (W - 8)) 0xFF.
Definition bottomByte (crc : Z) : Z := Z.land crc 0xFF.

(** [crc << 8] in the native width of the register of width [W]. *)
Definition shl8 (W crc : Z) : Z :=
  Z.land (Z.shiftl crc 8) (Z.ones (carrier_bits W)).

(** Masking back to [W] bits where the carrier is wider. *)
Definition mask (W crc : Z) : Z :=
  if W =? 24 then Z.land crc 0xFFFFFF else crc.

(** Width 8, either order: [crc = table[data[i] xor crc]]. *)
Definition byte_step (entries : list Z) (crc : Z) (b : byte) : Z :=
  lookup entries (Z.lxor (byte_val b) crc).

Definition byte_update (entries : list Z) (r : Z) (data : list byte) : Z :=
  fold_left (byte_step entries) data r.

Definition normal_step (W : Z) (entries : list Z) (crc : Z) (b : byte) : Z :=
  Z.lxor (lookup entries (Z.lxor (byte_val b) (topByte W crc))) (shl8 W crc).

Definition normal_update (W : Z) (entries : list Z) (r : Z)
  (data : list byte) : Z :=
  mask W (fold_left (normal_step W entries) data r).

(** The same with the register masked after every step as well. *)
Definition normal_update_masked (W : Z) (entries : list Z) (r : Z)
  (data : list byte) : Z :=
  mask W (fold_left (fun c b => mask W (normal_step W entries c b)) data r).

Definition reflected_step (entries : list Z) (crc : Z) (b : byte) : Z :=
  Z.lxor (lookup entries (Z.lxor (byte_val b) (bottomByte crc)))
    (Z.shiftr crc 8).

Definition reflected_update (entries : list Z) (r : Z) (data : list byte)
  : Z :=
  fold_left (reflected_step entries) data r.

End Spec.

(** Every entry of a 24-bit table leaves the high byte of its slot zero. *)
Definition entries_fit24 (bo : byte_order) (table : list byte) : Prop :=
  Forall (fun t => t <= 0xFFFFFF) (Spec.table_entries bo 24 table).

(** ** Sample buffers *)

(** A table of [n] zero bytes. *)
Definition zero_table (n : nat) : list byte := repeat x00 n.

(** A table of 256 four-byte entries, all zero except for the fourth byte
    of entry 0: on a little-endian machine entry 0 is [0x01000000]. *)
Definition high_byte_table : list byte :=
  [x00; x00; x00; x01] ++ repeat x00 1020.

(** ** Tables for the known check values

    The functions take their table from the caller.  For the test vectors
    at the end, the table of a generator polynomial is built here bit by
    bit and laid out in memory in the byte order of the machine. *)

Definition byte_of_Z (x : Z) : byte :=
  match Byte.of_N (Z.to_N (x mod 256)) with
  | Some b => b
  | None => x00
  end.

Fixpoint le_split (n : nat) (x : Z) : list byte :=
  match n with
  | O => []
  | S n' => byte_of_Z x :: le_split n' (Z.shiftr x 8)
  end.

Definition encode (bo : byte_order) (n : nat) (x : Z) : list byte :=
  match bo with
  | LittleEndian => le_split n x
  | BigEndian => rev (le_split n x)
  end.

Fixpoint divide_normal (W poly : Z) (n : nat) (c : Z) : Z :=
  match n with
  | O => c
  | S n' =>
      let shifted := Z.land (Z.shiftl c 1) (Z.ones W) in
      divide_normal W poly n'
        (if Z.testbit c (W - 1) then Z.lxor shifted poly else shifted)
  end.

Fixpoint divide_reflected (poly : Z) (n : nat) (c : Z) : Z :=
  match n with
  | O => c
  | S n' =>
      divide_reflected poly n'
        (if Z.odd c then Z.lxor (Z.shiftr c 1) poly else Z.shiftr c 1)
  end.

Definition normal_table (bo : byte_order) (size : nat) (W poly : Z)
  : list byte :=
  flat_map
    (fun i => encode bo size
                (divide_normal W poly 8 (Z.shiftl (Z.of_nat i) (W - 8))))
    (seq 0 256).

Definition reflected_table (bo : byte_order) (size : nat) (poly : Z)
  : list byte :=
  flat_map (fun i => encode bo size (divide_reflected poly 8 (Z.of_nat i)))
    (seq 0 256).

(** The ASCII digits "123456789". *)
Definition check_input : list byte :=
  [x31; x32; x33; x34; x35; x36; x37; x38; x39].

(** ** Exclusive or of buffers and of tables *)

Definition byte_xor (a b : byte) : byte :=
  byte_of_Z (Z.lxor (byte_val a) (byte_val b)).

(** Bytewise exclusive or of two buffers, as far as both reach. *)
Fixpoint xor_bytes (A B : list byte) : list byte :=
  match A, B with
  | a :: A', b :: B' => byte_xor a b :: xor_bytes A' B'
  | _, _ => []
  end.

(** A table whose entry at [i xor j] is the exclusive or of its entries at
    [i] and at [j]; the tables of a polynomial division are of this
    kind. *)
Definition xor_linear (entries : list Z) : Prop :=
  forall i j, 0 <= i < 256 -> 0 <= j < 256 ->
    Spec.lookup entries (Z.lxor i j)
    = Z.lxor (Spec.lookup entries i) (Spec.lookup entries j).

Definition xor_linearb (entries : list Z) : bool :=
  let indices := map Z.of_nat (seq 0 256) in
  forallb
    (fun i =>
       forallb
         (fun j =>
            Spec.lookup entries (Z.lxor i j)
            =? Z.lxor (Spec.lookup entries i) (Spec.lookup entries j))
         indices)
    indices.

(** ** The macros of [snmp_api.h]

    The header defines the flag bits of a session and two macros that keep
    count, in two of these bits, of the requests of a session that went
    unanswered; and the sizes of the padding fields of [snmp_ipaddr]. *)
Module Snmp.

(** Conversion to [u_long], the type of the field [flags]; [unsigned long]
    has the width of [long]. *)
Definition ULONG (x : Z) : Z := x mod 2 ^ long_bits.

Definition is_ulong (x : Z) : Prop := 0 <= x < 2 ^ long_bits.

Definition SNMP_FLAGS_DONT_PROBE : Z := 0x100.
Definition SNMP_FLAGS_STREAM_SOCKET : Z := 0x80.
Definition SNMP_FLAGS_LISTENING : Z := 0x40.
Definition SNMP_FLAGS_SUBSESSION : Z := 0x20.
Definition SNMP_FLAGS_STRIKE2 : Z := 0x02.
Definition SNMP_FLAGS_STRIKE1 : Z := 0x01.

(** [#define CLEAR_SNMP_STRIKE_FLAGS(x)
       x &= ~(SNMP_FLAGS_STRIKE2|SNMP_FLAGS_STRIKE1)]: the value of [x]
    afterwards.  The complement is taken in [int] and converted to the
    type of [x]. *)
Definition CLEAR_SNMP_STRIKE_FLAGS (x : Z) : Z :=
  Z.land x (ULONG (Z.lnot (Z.lor SNMP_FLAGS_STRIKE2 SNMP_FLAGS_STRIKE1))).

(** [#define SET_SNMP_STRIKE_FLAGS(x)
       ((x & SNMP_FLAGS_STRIKE2) ? 1 :
        (((x & SNMP_FLAGS_STRIKE1) ? (x |= SNMP_FLAGS_STRIKE2)
                                   : (x |= SNMP_FLAGS_STRIKE1)), 0))]:
    the value of the expression and the value of [x] afterwards. *)
Definition SET_SNMP_STRIKE_FLAGS (x : Z) : Z * Z :=
  if negb (Z.land x SNMP_FLAGS_STRIKE2 =? 0) then (1, x)
  else if negb (Z.land x SNMP_FLAGS_STRIKE1 =? 0)
       then (0, Z.lor x SNMP_FLAGS_STRIKE2)
       else (0, Z.lor x SNMP_FLAGS_STRIKE1).

(** [n] uses of [SET_SNMP_STRIKE_FLAGS] on the same flags, one after the
    other: the values of the [n] expressions and the flags at the end. *)
Fixpoint strikes (n : nat) (x : Z) : list Z * Z :=
  match n with
  | O => ([], x)
  | S n' =>
      let (v, x') := SET_SNMP_STRIKE_FLAGS x in
      let (vs, x'') := strikes n' x' in
      (v :: vs, x'')
  end.

(** The sizes of [snmp_ipaddr], on a machine where [unsigned short] and
    [long] take [sizeof_ushort] and [sizeof_long] bytes and [size_t] has
    [size_bits] bits. *)
Section Sizes.
Variable sizeof_ushort : Z.
Variable sizeof_long : Z.
Variable size_bits : Z.

Definition SIZE_T (x : Z) : Z := x mod 2 ^ size_bits.

Definition _UCD_SS_MAXSIZE : Z := 92.
Definition _UCD_SS_ALIGNSIZE : Z := sizeof_long.
Definition _UCD_SS_PAD1SIZE : Z := SIZE_T (_UCD_SS_ALIGNSIZE - sizeof_ushort).
Definition _UCD_SS_PAD2SIZE : Z :=
  SIZE_T (_UCD_SS_MAXSIZE
          - SIZE_T (SIZE_T (sizeof_ushort + _UCD_SS_PAD1SIZE)
                    + _UCD_SS_ALIGNSIZE)).

(** Sizes of the members [sa_family], [sa_data], [sa_align] and [sa_pad2]
    of [snmp_ipaddr], in the order of their declaration. *)
Definition snmp_ipaddr_members : list Z :=
  [sizeof_ushort; _UCD_SS_PAD1SIZE; sizeof_long; _UCD_SS_PAD2SIZE].
End Sizes.

End Snmp.

(** A table that has no two equal entries; the tables of a polynomial
    division are of this kind. *)
Definition distinct_entries (entries : list Z) : Prop :=
  forall i j, 0 <= i < 256 -> 0 <= j < 256 ->
    Spec.lookup entries i = Spec.lookup entries j -> i = j.

Definition distinct_entriesb (entries : list Z) : bool :=
  let indices := map Z.of_nat (seq 0 256) in
  forallb
    (fun i =>
       forallb
         (fun j =>
            negb (Spec.lookup entries i =? Spec.lookup entries j) || (i =? j))
         indices)
    indices.

(** ** Arithmetic of bytes and table entries *)

Lemma byte_val_range (b : byte) : 0 <= byte_val b < 256.
Proof.
  unfold byte_val. pose proof (Byte.to_N_bounded b). lia.
Qed.

Lemma le_combine_range (bs : list byte) :
  0 <= le_combine bs < 2 ^ (8 * Z.of_nat (length bs)).
Proof.
  induction bs as [|b rest IH].
  - simpl. lia.
  - cbn [le_combine length].
    pose proof (byte_val_range b) as Hb.
    replace (8 * Z.of_nat (S (length rest)))
      with (8 * Z.of_nat (length rest) + 8) by lia.
    set (n := 8 * Z.of_nat (length rest)) in *.
    assert (Hn : 0 <= n) by (subst n; lia).
    rewrite Z.shiftl_mul_pow2 by lia.
    rewrite Z.or_to_plus.
    + rewrite Z.pow_add_r by lia. change (2 ^ 8) with 256.
      generalize dependent (2 ^ n). clearbody n. intros. lia.
    + apply Z.bits_inj'. intros i Hi.
      rewrite Z.land_spec, Z.bits_0.
      destruct (Z.ltb_spec i 8).
      * rewrite <- Z.shiftl_mul_pow2 by lia.
        rewrite (Z.shiftl_spec_low _ 8 i) by lia.
        apply andb_false_r.
      * rewrite (Z.bits_above_log2 (byte_val b) i); [reflexivity|lia|].
        destruct (Z.eq_dec (byte_val b) 0) as [E|E].
        { rewrite E. simpl. lia. }
        assert (2 ^ 8 <= 2 ^ i) by (apply Z.pow_le_mono_r; lia).
        apply Z.log2_lt_pow2; lia.
Qed.

Lemma decode_range (bo : byte_order) (bs : list byte) :
  0 <= decode bo bs < 2 ^ (8 * Z.of_nat (length bs)).
Proof.
  destruct bo; simpl.
  - apply le_combine_range.
  - rewrite <- length_rev. apply le_combine_range.
Qed.

(** Equality of integers bit by bit; bits at negative positions are
    zero. *)
Ltac bits :=
  Z.bitblast;
  repeat match goal with
    | H : ?l < 0 |- context [Z.testbit ?x ?l] =>
        rewrite (Z.testbit_neg_r x l H)
    end;
  try reflexivity; try btauto.

Lemma lxor_range (n a b : Z) :
  0 <= n -> 0 <= a < 2 ^ n -> 0 <= b < 2 ^ n -> 0 <= Z.lxor a b < 2 ^ n.
Proof.
  intros Hn Ha Hb.
  assert (E : Z.lxor a b = Z.lxor a b mod 2 ^ n).
  { rewrite <- (Z.mod_small a (2 ^ n)) at 1 by assumption.
    rewrite <- (Z.mod_small b (2 ^ n)) at 1 by assumption.
    Z.bitblast. }
  rewrite E. apply Z.mod_pos_bound. apply Z.pow_pos_nonneg; lia.
Qed.

Lemma shiftr8_range (n c : Z) : 0 <= c < 2 ^ n -> 0 <= Z.shiftr c 8 < 2 ^ n.
Proof.
  intros H. rewrite Z.shiftr_div_pow2 by lia. change (2 ^ 8) with 256.
  split.
  - apply Z.div_pos; lia.
  - apply Z.le_lt_trans with c; [|lia].
    apply Z.div_le_upper_bound; lia.
Qed.

Lemma land_mask24 (c : Z) : Z.land c 0xFFFFFF = c mod 2 ^ 24.
Proof. change 0xFFFFFF with (Z.ones 24). apply Z.land_ones. lia. Qed.

Lemma land_mask24_range (c : Z) : 0 <= Z.land c 0xFFFFFF <= 0xFFFFFF.
Proof.
  rewrite land_mask24.
  pose proof (Z.mod_pos_bound c (2 ^ 24) ltac:(lia)). lia.
Qed.

Lemma land_mask24_small (c : Z) : 0 <= c <= 0xFFFFFF -> Z.land c 0xFFFFFF = c.
Proof. intros H. rewrite land_mask24. apply Z.mod_small. lia. Qed.

Lemma UINT8_range (x : Z) : 0 <= UINT8 x < 256.
Proof. unfold UINT8. apply Z.mod_pos_bound. lia. Qed.

(** Two step functions that agree under an invariant give the same fold. *)
Lemma fold_left_inv_ext {A B : Type} (inv : A -> Prop) (f g : A -> B -> A) :
  (forall a b, inv a -> f a b = g a b) ->
  (forall a b, inv a -> inv (f a b)) ->
  forall l a, inv a -> fold_left f l a = fold_left g l a.
Proof.
  intros Hfg Hinv. induction l as [|b l IH]; intros a Ha; simpl.
  - reflexivity.
  - rewrite <- (Hfg a b Ha). apply IH, Hinv, Ha.
Qed.

Lemma UINT8_land (x : Z) : UINT8 x = Z.land x 0xFF.
Proof.
  unfold UINT8. change 0xFF with (Z.ones 8). symmetry. apply Z.land_ones. lia.
Qed.

(** ** Reading the table *)

Lemma chunks_nth (size : nat) (n k : nat) (bs : list byte) :
  (k < n)%nat ->
  nth k (Spec.chunks size n bs) [] = firstn size (skipn (k * size) bs).
Proof.
  revert k bs. induction n as [|n IH]; intros k bs Hk; [lia|].
  destruct k as [|k]; simpl Spec.chunks; simpl nth.
  - reflexivity.
  - rewrite IH by lia. rewrite skipn_skipn.
    replace (k * size + size)%nat with (S k * size)%nat by lia.
    reflexivity.
Qed.

Lemma chunk_length (size k : nat) (table : list byte) :
  (k * size + size <= length table)%nat ->
  length (firstn size (skipn (k * size) table)) = size.
Proof.
  intros H. rewrite length_firstn, length_skipn. lia.
Qed.

Lemma decode_nil (bo : byte_order) : decode bo [] = 0.
Proof. destruct bo; reflexivity. Qed.

Lemma map_decode_nth (bo : byte_order) (cs : list (list byte)) (k : nat) :
  nth k (map (decode bo) cs) 0 = decode bo (nth k cs []).
Proof.
  rewrite <- (decode_nil bo) at 1. apply map_nth.
Qed.

(** A read at an index of [0 .. 255] of a table of 256 entries succeeds,
    and yields the entry the specification names. *)
Lemma load_in_table (bo : byte_order) (size : nat) (table : list byte) (i : Z) :
  Z.of_nat (length table) = 256 * Z.of_nat size ->
  0 <= i < 256 ->
  load bo size table i
  = Some (Spec.lookup (map (decode bo) (Spec.chunks size 256 table)) i)
  /\ 0 <= Spec.lookup (map (decode bo) (Spec.chunks size 256 table)) i
       < 2 ^ (8 * Z.of_nat size).
Proof.
  intros Hlen Hi.
  assert (Hk : (Z.to_nat i < 256)%nat) by lia.
  assert (Hin : (Z.to_nat i * size + size <= length table)%nat) by nia.
  unfold Spec.lookup.
  rewrite map_decode_nth, chunks_nth by assumption.
  split.
  - unfold load. destruct (Z.ltb_spec i 0); [lia|].
    rewrite chunk_length by assumption. rewrite Nat.eqb_refl. reflexivity.
  - pose proof (decode_range bo (firstn size (skipn (Z.to_nat i * size) table)))
      as R.
    rewrite chunk_length in R by assumption. exact R.
Qed.

(** ** The loop runs once per byte

    For a loop whose table reads all succeed (under an invariant [inv] of
    the register), enough fuel gives the fold of the data, and less fuel
    than one unit per byte plus one does not reach the end. *)
Section LoopFacts.
Variable bo : byte_order.
Variable size : nat.
Variable index : Z -> Z -> Z.
Variable combine : Z -> Z -> Z.
Variable table : list byte.
Variable buf : list byte.
Variable inv : Z -> Prop.

Hypothesis read_ok : forall c b, inv c ->
  exists t, load bo size table (index (byte_val b) c) = Some t.
Hypothesis inv_next : forall c b, inv c ->
  inv (next bo size index combine table c b).

Local Abbreviation step := (loop_step bo size index combine table buf).
Local Abbreviation loop := (while_loop bo size index combine table buf).
Local Abbreviation nxt := (next bo size index combine table).

Lemma loop_step_byte (pre rest : list byte) (b : byte) (c : Z)
  (tr : list event) :
  buf = pre ++ b :: rest -> inv c ->
  step (mkLoop (Z.of_nat (length (b :: rest))) (length pre) c tr)
  = Continue (mkLoop (Z.of_nat (length rest)) (S (length pre)) (nxt c b)
                (tr ++ [ReadData (length pre);
                        ReadTable (index (byte_val b) c)])).
Proof.
  intros Hbuf Hc. unfold loop_step. cbn [st_dataLen st_data st_crc st_trace].
  destruct (Z.eqb_spec (Z.of_nat (length (b :: rest))) 0) as [E|_].
  { simpl in E. lia. }
  rewrite Hbuf, nth_error_app2, Nat.sub_diag by lia. cbn [nth_error].
  destruct (read_ok c b Hc) as [t Ht].
  unfold next, entry. rewrite Ht.
  do 2 f_equal. simpl length. lia.
Qed.

Lemma loop_step_end (pos : nat) (c : Z) (tr : list event) :
  step (mkLoop 0 pos c tr) = Break (mkLoop (-1) pos c tr).
Proof. reflexivity. Qed.

Lemma while_loop_fold (rest : list byte) :
  forall (pre : list byte) (c : Z) (tr : list event) (fuel : nat),
    buf = pre ++ rest -> inv c -> (length rest < fuel)%nat ->
    loop fuel (mkLoop (Z.of_nat (length rest)) (length pre) c tr)
    = Finished (length rest)
        (mkLoop (-1) (length buf) (fold_left nxt rest c)
           (tr ++ reads bo size index combine table (length pre) c rest)).
Proof.
  induction rest as [|b rest IH]; intros pre c tr fuel Hbuf Hc Hfuel;
    (destruct fuel as [|fuel]; [simpl in Hfuel; lia|]);
    cbn [while_loop].
  - change (Z.of_nat (length [])) with 0. rewrite loop_step_end.
    rewrite Hbuf, !app_nil_r. reflexivity.
  - rewrite (loop_step_byte pre rest b c tr Hbuf Hc).
    replace (S (length pre)) with (length (pre ++ [b]))
      by (rewrite length_app; simpl; lia).
    rewrite IH.
    + cbn [fold_left reads length]. rewrite <- app_assoc.
      replace (length (pre ++ [b])) with (S (length pre))
        by (rewrite length_app; simpl; lia).
      reflexivity.
    + rewrite <- app_assoc. exact Hbuf.
    + apply inv_next, Hc.
    + simpl in Hfuel. lia.
Qed.

Lemma while_loop_short (rest : list byte) :
  forall (pre : list byte) (c : Z) (tr : list event) (fuel : nat),
    buf = pre ++ rest -> inv c -> (fuel <= length rest)%nat ->
    loop fuel (mkLoop (Z.of_nat (length rest)) (length pre) c tr) = OutOfFuel.
Proof.
  induction rest as [|b rest IH]; intros pre c tr fuel Hbuf Hc Hfuel;
    (destruct fuel as [|fuel]; [reflexivity|]); simpl in Hfuel; [lia|].
  cbn [while_loop].
  rewrite (loop_step_byte pre rest b c tr Hbuf Hc).
  replace (S (length pre)) with (length (pre ++ [b]))
    by (rewrite length_app; simpl; lia).
  rewrite IH; [reflexivity| |apply inv_next, Hc|lia].
  rewrite <- app_assoc. exact Hbuf.
Qed.

(** The reads: byte [k] of the data at iteration [k], each followed by
    one table read. *)
Lemma data_reads_reads (bs : list byte) :
  forall pos c,
    data_reads (reads bo size index combine table pos c bs)
    = seq pos (length bs).
Proof.
  induction bs as [|b bs IH]; intros pos c; simpl; [reflexivity|].
  rewrite IH. reflexivity.
Qed.

Lemma table_reads_length (bs : list byte) :
  forall pos c,
    length (table_reads (reads bo size index combine table pos c bs))
    = length bs.
Proof.
  induction bs as [|b bs IH]; intros pos c; simpl; [reflexivity|].
  rewrite IH. reflexivity.
Qed.

Lemma table_reads_range (P : Z -> Prop) (bs : list byte) :
  (forall c b, inv c -> P (index (byte_val b) c)) ->
  forall pos c, inv c ->
    Forall P (table_reads (reads bo size index combine table pos c bs)).
Proof.
  intros HP. induction bs as [|b bs IH]; intros pos c Hc; simpl.
  - constructor.
  - constructor; [apply HP, Hc|]. apply IH, inv_next, Hc.
Qed.

Lemma fold_inv (bs : list byte) :
  forall c, inv c -> inv (fold_left nxt bs c).
Proof.
  induction bs as [|b bs IH]; intros c Hc; simpl; [exact Hc|].
  apply IH, inv_next, Hc.
Qed.
End LoopFacts.

(** ** The ten functions, uniformly *)

(** Every function is registered in the method table, once. *)
Lemma methodTable_complete (f : crcfun) :
  exists name, In (name, f) methodTable /\ length methodTable = 10%nat.
Proof.
  destruct f; eexists; (split; [|reflexivity]); simpl; tauto.
Qed.

Lemma call_unfold (bo : byte_order) (f : crcfun) (data : list byte) (crc : Z)
  (table : list byte) :
  call bo f data crc table
  = if negb (Z.of_nat (length table) =? 256 * entry_byte_size (width f))
    then (Raise PyExc_ValueError "invalid CRC table", [])
    else returning (sh_conv (shape_of f))
           (loop_of bo f table data (S (length data)) crc).
Proof. destruct f; reflexivity. Qed.

Lemma shape_size (f : crcfun) :
  Z.of_nat (sh_size (shape_of f)) = entry_byte_size (width f).
Proof. destruct f; reflexivity. Qed.

Lemma is_register_bits (f : crcfun) (r : Z) :
  is_register f r <-> 0 <= r < 2 ^ (8 * Z.of_nat (sh_size (shape_of f))).
Proof. unfold is_register, carrier_bits. rewrite shape_size. reflexivity. Qed.

Lemma index_range (f : crcfun) (d c : Z) :
  0 <= d < 256 -> is_register f c ->
  0 <= sh_index (shape_of f) d c < 256.
Proof.
  intros Hd Hc. change 256 with (2 ^ 8).
  destruct f; cbn [shape_of sh_index];
    apply lxor_range; try lia; try apply UINT8_range; exact Hc.
Qed.

Lemma combine_range (f : crcfun) (t c : Z) :
  0 <= t < 2 ^ (8 * Z.of_nat (sh_size (shape_of f))) -> is_register f c ->
  is_register f (sh_combine (shape_of f) t c).
Proof.
  intros Ht Hc. apply is_register_bits. apply is_register_bits in Hc.
  destruct f; cbn [shape_of sh_combine sh_size] in *;
    try exact Ht;
    try (apply Z.mod_pos_bound; lia);
    try (apply lxor_range; [lia|exact Ht|]);
    try (apply shiftr8_range; exact Hc);
    apply Z.mod_pos_bound; lia.
Qed.

Lemma init_range (f : crcfun) (r : Z) :
  is_register f r -> is_register f (sh_init (shape_of f) r).
Proof.
  intros Hr. destruct f; cbn [shape_of sh_init]; try exact Hr.
  pose proof (land_mask24_range r). unfold is_register. simpl. lia.
Qed.

Lemma to_long_small (x : Z) : 0 <= x < 2 ^ 32 -> to_long x = x.
Proof.
  intros H. unfold to_long, long_bits.
  change (2 ^ (64 - 1)) with 9223372036854775808.
  change (2 ^ 64) with 18446744073709551616. change (2 ^ 32) with 4294967296 in H.
  rewrite Z.mod_small; lia.
Qed.

Lemma sh_conv_small (f : crcfun) (x : Z) :
  is_register f x -> sh_conv (shape_of f) x = conv_of f x.
Proof.
  intros Hx. unfold is_register in Hx.
  destruct f; cbn [shape_of sh_conv conv_of]; try reflexivity;
    apply to_long_small; try (pose proof (land_mask24_range x)); simpl in Hx;
    lia.
Qed.

Section Variants.
Variable bo : byte_order.
Variable f : crcfun.
Variable table : list byte.
Hypothesis table_ok : valid_table f table.

Local Abbreviation sh := (shape_of f).

Lemma table_length : Z.of_nat (length table) = 256 * Z.of_nat (sh_size sh).
Proof. rewrite shape_size. exact table_ok. Qed.

Lemma variant_read_ok (c : Z) (b : byte) :
  is_register f c ->
  exists t, load bo (sh_size sh) table (sh_index sh (byte_val b) c) = Some t.
Proof.
  intros Hc.
  destruct (load_in_table bo (sh_size sh) table (sh_index sh (byte_val b) c)
              table_length) as [E _].
  - apply index_range; [apply byte_val_range|exact Hc].
  - eexists. exact E.
Qed.

Lemma variant_entry (i : Z) :
  0 <= i < 256 ->
  entry bo (sh_size sh) table i
  = Spec.lookup (Spec.table_entries bo (width f) table) i
  /\ 0 <= entry bo (sh_size sh) table i < 2 ^ (8 * Z.of_nat (sh_size sh)).
Proof.
  intros Hi.
  destruct (load_in_table bo (sh_size sh) table i table_length Hi) as [E R].
  unfold entry, Spec.table_entries. rewrite E.
  rewrite <- shape_size, Nat2Z.id. split; [reflexivity|exact R].
Qed.

Lemma variant_inv_next (c : Z) (b : byte) :
  is_register f c ->
  is_register f (next bo (sh_size sh) (sh_index sh) (sh_combine sh) table c b).
Proof.
  intros Hc. unfold next. apply combine_range; [|exact Hc].
  apply variant_entry. apply index_range; [apply byte_val_range|exact Hc].
Qed.

(** With a table of the valid length the loop ends after one iteration
    per byte, with the fold of the data in the register. *)
Lemma loop_of_finished (data : list byte) (r : Z) (fuel : nat) :
  is_register f r -> (length data < fuel)%nat ->
  loop_of bo f table data fuel r
  = Finished (length data)
      (mkLoop (-1) (length data) (fold_of bo f table (sh_init sh r) data)
         (reads_of bo f table (sh_init sh r) data)).
Proof.
  intros Hr Hfuel. unfold loop_of, fold_of, reads_of.
  apply (while_loop_fold bo (sh_size sh) (sh_index sh) (sh_combine sh) table
           data (is_register f) variant_read_ok variant_inv_next data []
           (sh_init sh r) [] fuel eq_refl (init_range f r Hr) Hfuel).
Qed.

Lemma loop_of_short (data : list byte) (r : Z) (fuel : nat) :
  is_register f r -> (fuel <= length data)%nat ->
  loop_of bo f table data fuel r = OutOfFuel.
Proof.
  intros Hr Hfuel. unfold loop_of.
  apply (while_loop_short bo (sh_size sh) (sh_index sh) (sh_combine sh) table
           data (is_register f) variant_read_ok variant_inv_next data []
           (sh_init sh r) [] fuel eq_refl (init_range f r Hr) Hfuel).
Qed.

Lemma fold_of_register (data : list byte) (c : Z) :
  is_register f c -> is_register f (fold_of bo f table c data).
Proof.
  intros Hc. unfold fold_of.
  apply (fold_inv bo (sh_size sh) (sh_index sh) (sh_combine sh) table
           (is_register f) variant_inv_next data c Hc).
Qed.

(** The conversion to [long] preserves every register. *)
Lemma call_valid (data : list byte) (r : Z) :
  is_register f r ->
  call bo f data r table
  = (Return (conv_of f (fold_of bo f table (sh_init sh r) data)),
     reads_of bo f table (sh_init sh r) data).
Proof.
  intros Hr. rewrite call_unfold.
  unfold valid_table in table_ok. rewrite table_ok, Z.eqb_refl. cbn [negb].
  rewrite loop_of_finished by (assumption || lia).
  cbn [returning st_crc st_trace].
  rewrite sh_conv_small by (apply fold_of_register, init_range, Hr).
  reflexivity.
Qed.
End Variants.

(** ** Rejection of a table of the wrong size *)

Lemma call_invalid (bo : byte_order) (f : crcfun) (data : list byte) (r : Z)
  (table : list byte) :
  Z.of_nat (length table) <> 256 * entry_byte_size (width f) ->
  call bo f data r table = (Raise PyExc_ValueError "invalid CRC table", []).
Proof.
  intros Hlen. rewrite call_unfold.
  destruct (Z.eqb_spec (Z.of_nat (length table))
              (256 * entry_byte_size (width f))) as [H|_]; [contradiction|].
  reflexivity.
Qed.

(** C4.  Whichever of the ten functions is called, when the byte length of
    the table is not 256 times the entry size of the width (1 byte for
    width 8, 2 for 16, 4 for 24 and 32, 8 for 64), the call raises the
    error with the message "invalid CRC table", has read no byte of either
    buffer, and returns no register. *)
Theorem invalid_table_rejected (bo : byte_order) (f : crcfun)
  (data : list byte) (r : Z) (table : list byte) :
  Z.of_nat (length table) <> 256 * entry_byte_size (width f) ->
  call bo f data r table = (Raise PyExc_ValueError "invalid CRC table", [])
  /\ (forall v, fst (call bo f data r table) <> Return v)
  /\ (entry_byte_size 8 = 1 /\ entry_byte_size 16 = 2 /\ entry_byte_size 24 = 4
      /\ entry_byte_size 32 = 4 /\ entry_byte_size 64 = 8).
Proof.
  intros Hlen. rewrite (call_invalid bo f data r table Hlen).
  repeat split. intros v. discriminate.
Qed.

Lemma invalid_table_rejected_witness :
  Z.of_nat (length (zero_table 511)) <> 256 * entry_byte_size (width Crc16)
  /\ call LittleEndian Crc16 [x31; x32] 0 (zero_table 511)
     = (Raise PyExc_ValueError "invalid CRC table", []).
Proof.
  assert (H : Z.of_nat (length (zero_table 511))
              <> 256 * entry_byte_size (width Crc16))
    by (vm_compute; discriminate).
  split; [exact H|].
  apply (invalid_table_rejected LittleEndian Crc16 [x31; x32] 0
           (zero_table 511) H).
Defined.

(** ** Width 8: one recurrence for both bit orders *)

(** C6.  [_crc8] and [_crc8r] return the same result for every initial
    register, table and input; with a table of 256 entries it is the
    register of the one recurrence [crc = table[b xor crc]] they share. *)
Theorem crc8_orders_agree (bo : byte_order) (data : list byte) (r : Z)
  (table : list byte) :
  _crc8 bo data r table = _crc8r bo data r table
  /\ (valid_table Crc8 table -> is_register Crc8 r ->
      fst (_crc8r bo data r table)
      = Return (Spec.byte_update (Spec.table_entries bo 8 table) r data)).
Proof.
  split; [reflexivity|]. intros Hv Hr.
  change (_crc8r bo data r table) with (call bo Crc8r data r table).
  rewrite (call_valid bo Crc8r table Hv data r Hr). cbn [fst].
  unfold Spec.byte_update, fold_of, conv_of.
  cbn [shape_of sh_init sh_size sh_index sh_combine]. f_equal.
  apply (fold_left_inv_ext (is_register Crc8r)); [| |exact Hr].
  - intros c b Hc. unfold next, Spec.byte_step.
    apply (variant_entry bo Crc8r table Hv).
    apply (index_range Crc8r (byte_val b) c (byte_val_range b) Hc).
  - intros c b Hc. apply (variant_inv_next bo Crc8r table Hv c b Hc).
Qed.

(** ** Empty input *)

(** C7, as the code has it.  With a table of the valid length, a call with
    an empty input buffer reads nothing and returns the initial register
    unchanged for the widths 8, 16, 32 and 64; the two 24-bit functions
    return its low 24 bits, which is the initial register itself exactly
    when that is at most [0xFFFFFF]. *)
Theorem empty_update (bo : byte_order) (f : crcfun) (r : Z)
  (table : list byte) :
  valid_table f table -> is_register f r ->
  call bo f [] r table = (Return (Spec.mask (width f) r), [])
  /\ (width f <> 24 \/ 0 <= r <= 0xFFFFFF ->
      call bo f [] r table = (Return r, [])).
Proof.
  intros Htable Hr.
  assert (E : call bo f [] r table = (Return (Spec.mask (width f) r), [])).
  { rewrite (call_valid bo f table Htable [] r Hr).
    destruct f; reflexivity. }
  split; [exact E|].
  intros H. rewrite E. do 2 f_equal. unfold Spec.mask.
  destruct (Z.eqb_spec (width f) 24) as [W|W]; [|reflexivity].
  apply land_mask24_small. destruct H; [contradiction|assumption].
Qed.

Lemma empty_update_witness :
  valid_table Crc24 (zero_table 1024) /\ is_register Crc24 0x1ABCDEF
  /\ call LittleEndian Crc24 [] 0x1ABCDEF (zero_table 1024)
     = (Return 0xABCDEF, []).
Proof.
  assert (H : valid_table Crc24 (zero_table 1024)) by reflexivity.
  assert (Hr : is_register Crc24 0x1ABCDEF)
    by (unfold is_register; simpl; lia).
  repeat (split; [assumption|]).
  apply (empty_update LittleEndian Crc24 0x1ABCDEF (zero_table 1024) H Hr).
Defined.

(** C7 as stated fails: [_crc24] with an empty buffer and a register whose
    bit 24 is set returns 0, not the register. *)
Lemma empty_update_counterexample :
  valid_table Crc24 (zero_table 1024) /\ is_register Crc24 0x1000000
  /\ fst (call LittleEndian Crc24 [] 0x1000000 (zero_table 1024)) = Return 0
  /\ fst (call LittleEndian Crc24 [] 0x1000000 (zero_table 1024))
     <> Return 0x1000000.
Proof.
  split; [reflexivity|]. split; [unfold is_register; simpl; lia|].
  split; [reflexivity|]. vm_compute. discriminate.
Qed.

(** ** The 24-bit register in its 32-bit carrier *)

(** The body of the loop of [_crc24] looks at the low 24 bits of the
    register only. *)
Lemma BYTE2_low24 (r : Z) : BYTE2 (Z.land r 0xFFFFFF) = BYTE2 r.
Proof.
  unfold BYTE2, UINT8. change 0xFFFFFF with (Z.ones 24). Z.bitblast.
Qed.

Lemma shl8_low24 (r : Z) :
  UINT32 (Z.shiftl (Z.land r 0xFFFFFF) 8) = UINT32 (Z.shiftl r 8).
Proof.
  unfold UINT32. change 0xFFFFFF with (Z.ones 24). bits.
Qed.

Lemma crc24_step_low24 (bo : byte_order) (table buf : list byte) (n : Z)
  (pos : nat) (r : Z) (tr : list event) :
  n <> 0 ->
  loop_step bo 4 (fun d crc => Z.lxor d (BYTE2 crc))
    (fun t crc => Z.lxor t (UINT32 (Z.shiftl crc 8))) table buf
    (mkLoop n pos (Z.land r 0xFFFFFF) tr)
  = loop_step bo 4 (fun d crc => Z.lxor d (BYTE2 crc))
      (fun t crc => Z.lxor t (UINT32 (Z.shiftl crc 8))) table buf
      (mkLoop n pos r tr).
Proof.
  intros Hn. unfold loop_step. cbn [st_dataLen st_data st_crc st_trace].
  destruct (Z.eqb_spec n 0) as [E|_]; [contradiction|].
  rewrite BYTE2_low24, shl8_low24. reflexivity.
Qed.

(** C10.  [_crc24] yields the same outcome for two initial registers that
    have the same low 24 bits, whatever their bits 24 to 31, for the same
    table and the same input bytes. *)
Theorem crc24_ignores_high_bits (bo : byte_order) (data : list byte)
  (r1 r2 : Z) (table : list byte) :
  Z.land r1 0xFFFFFF = Z.land r2 0xFFFFFF ->
  _crc24 bo data r1 table = _crc24 bo data r2 table.
Proof.
  intros Hlow. unfold _crc24.
  destruct (negb (Z.of_nat (length table) =? 256 * 4)); [reflexivity|].
  destruct data as [|b rest].
  - cbn -[Z.land to_long]. rewrite Hlow. reflexivity.
  - f_equal. cbn [while_loop].
    rewrite <- (crc24_step_low24 bo table (b :: rest) _ 0 r1 [])
      by (simpl; lia).
    rewrite <- (crc24_step_low24 bo table (b :: rest) _ 0 r2 [])
      by (simpl; lia).
    rewrite Hlow. reflexivity.
Qed.

Lemma crc24_ignores_high_bits_witness :
  Z.land 0x00123456 0xFFFFFF = Z.land 0xFF123456 0xFFFFFF
  /\ _crc24 LittleEndian [x31; x32; x33] 0x00123456 high_byte_table
     = _crc24 LittleEndian [x31; x32; x33] 0xFF123456 high_byte_table.
Proof.
  assert (H : Z.land 0x00123456 0xFFFFFF = Z.land 0xFF123456 0xFFFFFF)
    by reflexivity.
  split; [exact H|].
  apply (crc24_ignores_high_bits LittleEndian [x31; x32; x33]
           0x00123456 0xFF123456 high_byte_table H).
Defined.

(** ** Termination and memory safety *)

(** C8.  Every one of the ten functions produces a result on every input
    buffer: a register, or the error for a table of the wrong size.  With
    a table of the valid length its loop ends after exactly as many
    iterations as there are input bytes (any larger fuel gives the same
    final state, with the data pointer at the end of the buffer; no
    smaller fuel reaches the end), and iteration [k] reads byte [k] of the
    input and no other. *)
Theorem update_terminates (bo : byte_order) (f : crcfun) (data : list byte)
  (r : Z) (table : list byte) :
  is_register f r ->
  ((exists v, fst (call bo f data r table) = Return v)
   \/ fst (call bo f data r table)
      = Raise PyExc_ValueError "invalid CRC table")
  /\ (valid_table f table ->
      (forall fuel, (length data < fuel)%nat ->
         exists s, loop_of bo f table data fuel r = Finished (length data) s
                   /\ st_data s = length data)
      /\ (forall fuel, (fuel <= length data)%nat ->
            loop_of bo f table data fuel r = OutOfFuel)
      /\ data_reads (snd (call bo f data r table)) = seq 0 (length data)).
Proof.
  intros Hr. split.
  - destruct (Z.eq_dec (Z.of_nat (length table))
                (256 * entry_byte_size (width f))) as [Hv|Hv].
    + left. rewrite (call_valid bo f table Hv data r Hr). eexists. reflexivity.
    + right. rewrite (call_invalid bo f data r table Hv). reflexivity.
  - intros Hv. repeat split.
    + intros fuel Hfuel.
      rewrite (loop_of_finished bo f table Hv data r fuel Hr Hfuel).
      eexists. split; reflexivity.
    + intros fuel Hfuel. apply loop_of_short; assumption.
    + rewrite (call_valid bo f table Hv data r Hr). cbn [snd].
      unfold reads_of. apply data_reads_reads.
Qed.

Lemma update_terminates_witness :
  is_register Crc64 0xFFFFFFFFFFFFFFFF
  /\ ((exists v,
         fst (call BigEndian Crc64 [x31; x32; x33] 0xFFFFFFFFFFFFFFFF
                (zero_table 2048)) = Return v)
      \/ fst (call BigEndian Crc64 [x31; x32; x33] 0xFFFFFFFFFFFFFFFF
                (zero_table 2048))
         = Raise PyExc_ValueError "invalid CRC table").
Proof.
  assert (H : is_register Crc64 0xFFFFFFFFFFFFFFFF)
    by (unfold is_register; simpl; lia).
  split; [exact H|].
  apply (update_terminates BigEndian Crc64 [x31; x32; x33]
           0xFFFFFFFFFFFFFFFF (zero_table 2048) H).
Defined.

(** C9.  In a call whose table passed the length check, every table read
    of the loop is at an index of [0 .. 255], there is one such read per
    input byte, and no read leaves the table: the call does not crash. *)
Theorem table_reads_in_bounds (bo : byte_order) (f : crcfun)
  (data : list byte) (r : Z) (table : list byte) :
  valid_table f table -> is_register f r ->
  Forall (fun i => 0 <= i <= 255)
    (table_reads (snd (call bo f data r table)))
  /\ length (table_reads (snd (call bo f data r table))) = length data
  /\ fst (call bo f data r table) <> Crash.
Proof.
  intros Hv Hr. rewrite (call_valid bo f table Hv data r Hr). cbn [fst snd].
  unfold reads_of. repeat split.
  - apply table_reads_range with (inv := is_register f).
    + intros c b Hc. apply (variant_inv_next bo f table Hv c b Hc).
    + intros c b Hc.
      pose proof (index_range f (byte_val b) c (byte_val_range b) Hc). lia.
    + apply init_range, Hr.
  - apply table_reads_length.
  - discriminate.
Qed.

Lemma table_reads_in_bounds_witness :
  valid_table Crc8 (zero_table 256) /\ is_register Crc8 0xFF
  /\ fst (call LittleEndian Crc8 [xff; x00] 0xFF (zero_table 256)) <> Crash.
Proof.
  assert (Hv : valid_table Crc8 (zero_table 256)) by reflexivity.
  assert (Hr : is_register Crc8 0xFF) by (unfold is_register; simpl; lia).
  split; [exact Hv|]. split; [exact Hr|].
  apply (table_reads_in_bounds LittleEndian Crc8 [xff; x00] 0xFF
           (zero_table 256) Hv Hr).
Defined.

(** ** The code against the recurrences of the specification *)

Lemma normal_index (f : crcfun) (d c : Z) :
  reflected f = false -> 16 <= width f ->
  sh_index (shape_of f) d c = Z.lxor d (Spec.topByte (width f) c).
Proof.
  intros Hn Hw.
  destruct f; try discriminate Hn; try (simpl in Hw; lia);
    cbn [shape_of sh_index]; unfold BYTE1, BYTE2, BYTE3, BYTE7, Spec.topByte;
    rewrite UINT8_land; reflexivity.
Qed.

Lemma normal_combine (f : crcfun) (t c : Z) :
  reflected f = false -> 16 <= width f ->
  0 <= t < 2 ^ (8 * Z.of_nat (sh_size (shape_of f))) ->
  sh_combine (shape_of f) t c = Z.lxor t (Spec.shl8 (width f) c).
Proof.
  intros Hn Hw Ht. unfold Spec.shl8.
  destruct f; try discriminate Hn; try (simpl in Hw; lia);
    cbn [shape_of sh_combine sh_size] in *;
    rewrite Z.land_ones by (vm_compute; discriminate);
    try reflexivity.
  unfold UINT16. change (carrier_bits (width Crc16)) with 16.
  change (8 * Z.of_nat 2) with 16 in Ht.
  rewrite <- (Z.mod_small t (2 ^ 16)) at 2 by exact Ht. bits.
Qed.

Lemma normal_shape (f : crcfun) (x : Z) :
  reflected f = false ->
  sh_init (shape_of f) x = x /\ conv_of f x = Spec.mask (width f) x.
Proof.
  intros Hn. destruct f; try discriminate Hn; split; reflexivity.
Qed.

Lemma normal_next (bo : byte_order) (f : crcfun) (table : list byte)
  (c : Z) (b : byte) :
  reflected f = false -> 16 <= width f -> valid_table f table ->
  is_register f c ->
  next bo (sh_size (shape_of f)) (sh_index (shape_of f))
    (sh_combine (shape_of f)) table c b
  = Spec.normal_step (width f) (Spec.table_entries bo (width f) table) c b.
Proof.
  intros Hn Hw Hv Hc. unfold next, Spec.normal_step.
  pose proof (index_range f (byte_val b) c (byte_val_range b) Hc) as Hi.
  destruct (variant_entry bo f table Hv _ Hi) as [E R].
  rewrite (normal_combine f _ c Hn Hw R), E.
  rewrite (normal_index f _ c Hn Hw). reflexivity.
Qed.

(** The recurrence of the normal order looks at the low 24 bits of a
    24-bit register only, so masking after every step changes nothing. *)
Lemma normal_step_mask (W : Z) (entries : list Z) (c : Z) (b : byte) :
  Spec.normal_step W entries (Spec.mask W c) b = Spec.normal_step W entries c b.
Proof.
  unfold Spec.mask. destruct (Z.eqb_spec W 24) as [->|_]; [|reflexivity].
  unfold Spec.normal_step, Spec.topByte, Spec.shl8.
  change (carrier_bits 24) with 32. change (24 - 8) with 16.
  change 0xFFFFFF with (Z.ones 24). change 0xFF with (Z.ones 8).
  f_equal; [do 2 f_equal|]; bits.
Qed.

Lemma mask_idem (W c : Z) : Spec.mask W (Spec.mask W c) = Spec.mask W c.
Proof.
  unfold Spec.mask. destruct (W =? 24); [|reflexivity].
  rewrite !land_mask24. apply Z.mod_mod. lia.
Qed.

Lemma normal_update_masked_eq (W : Z) (entries : list Z) (data : list byte) :
  forall r r', Spec.mask W r = Spec.mask W r' ->
    Spec.normal_update_masked W entries r data
    = Spec.normal_update W entries r' data.
Proof.
  unfold Spec.normal_update_masked, Spec.normal_update.
  induction data as [|b data IH]; intros r r' Hr; simpl.
  - exact Hr.
  - apply IH. rewrite mask_idem.
    rewrite <- (normal_step_mask W entries r b), Hr, normal_step_mask.
    reflexivity.
Qed.

(** C1.  For the widths 16, 24, 32 and 64, with a table of the valid
    length, the function of the normal order returns the register obtained
    by folding the input bytes, in order, through
    [crc := table[b xor topByte(crc)] xor (crc << 8)], the shift taken in
    the native width of the register and, for width 24, the result masked
    to 24 bits; masking after every step as well gives the same register. *)
Theorem normal_update_refines (bo : byte_order) (f : crcfun)
  (data : list byte) (r : Z) (table : list byte) :
  reflected f = false -> 16 <= width f ->
  valid_table f table -> is_register f r ->
  fst (call bo f data r table)
  = Return (Spec.normal_update (width f)
              (Spec.table_entries bo (width f) table) r data)
  /\ Spec.normal_update_masked (width f)
       (Spec.table_entries bo (width f) table) r data
     = Spec.normal_update (width f)
         (Spec.table_entries bo (width f) table) r data.
Proof.
  intros Hn Hw Hv Hr. split.
  - rewrite (call_valid bo f table Hv data r Hr). cbn [fst].
    destruct (normal_shape f r Hn) as [-> _].
    destruct (normal_shape f (fold_of bo f table r data) Hn) as [_ ->].
    unfold Spec.normal_update, fold_of. do 2 f_equal.
    apply (fold_left_inv_ext (is_register f)).
    + intros c b Hc. apply normal_next; assumption.
    + intros c b Hc. apply variant_inv_next; assumption.
    + exact Hr.
  - apply normal_update_masked_eq. reflexivity.
Qed.

Lemma normal_update_refines_witness :
  reflected Crc24 = false /\ 16 <= width Crc24
  /\ valid_table Crc24 high_byte_table /\ is_register Crc24 0xFFB704CE
  /\ fst (call LittleEndian Crc24 [x31; x32; x33] 0xFFB704CE high_byte_table)
     = Return (Spec.normal_update 24
                 (Spec.table_entries LittleEndian 24 high_byte_table)
                 0xFFB704CE [x31; x32; x33]).
Proof.
  assert (Hn : reflected Crc24 = false) by reflexivity.
  assert (Hw : 16 <= width Crc24) by (simpl; lia).
  assert (Hv : valid_table Crc24 high_byte_table) by reflexivity.
  assert (Hr : is_register Crc24 0xFFB704CE)
    by (unfold is_register; simpl; lia).
  repeat (split; [assumption|]).
  apply (normal_update_refines LittleEndian Crc24 [x31; x32; x33] 0xFFB704CE
           high_byte_table Hn Hw Hv Hr).
Defined.

Lemma reflected_index (f : crcfun) (d c : Z) :
  reflected f = true -> 16 <= width f ->
  sh_index (shape_of f) d c = Z.lxor d (Spec.bottomByte c).
Proof.
  intros Hn Hw.
  destruct f; try discriminate Hn; try (simpl in Hw; lia);
    cbn [shape_of sh_index]; unfold BYTE0, Spec.bottomByte;
    rewrite UINT8_land; reflexivity.
Qed.

Lemma reflected_combine (f : crcfun) (t c : Z) :
  reflected f = true -> 16 <= width f ->
  0 <= t < 2 ^ (8 * Z.of_nat (sh_size (shape_of f))) -> is_register f c ->
  sh_combine (shape_of f) t c = Z.lxor t (Z.shiftr c 8).
Proof.
  intros Hn Hw Ht Hc.
  destruct f; try discriminate Hn; try (simpl in Hw; lia);
    cbn [shape_of sh_combine sh_size] in *; try reflexivity.
  unfold UINT16. apply Z.mod_small.
  apply lxor_range; [lia|exact Ht|]. apply shiftr8_range. exact Hc.
Qed.

Lemma reflected_shape (f : crcfun) (x : Z) :
  reflected f = true -> 16 <= width f ->
  sh_init (shape_of f) x = Spec.mask (width f) x /\ conv_of f x = x.
Proof.
  intros Hn Hw.
  destruct f; try discriminate Hn; try (simpl in Hw; lia); split; reflexivity.
Qed.

Lemma reflected_next (bo : byte_order) (f : crcfun) (table : list byte)
  (c : Z) (b : byte) :
  reflected f = true -> 16 <= width f -> valid_table f table ->
  is_register f c ->
  next bo (sh_size (shape_of f)) (sh_index (shape_of f))
    (sh_combine (shape_of f)) table c b
  = Spec.reflected_step (Spec.table_entries bo (width f) table) c b.
Proof.
  intros Hn Hw Hv Hc. unfold next, Spec.reflected_step.
  pose proof (index_range f (byte_val b) c (byte_val_range b) Hc) as Hi.
  destruct (variant_entry bo f table Hv _ Hi) as [E R].
  rewrite (reflected_combine f _ c Hn Hw R Hc), E.
  rewrite (reflected_index f _ c Hn Hw). reflexivity.
Qed.

(** C2, as the code has it.  For the widths 16, 24, 32 and 64, with a table
    of the valid length, the function of the reflected order returns the
    register obtained by folding the input bytes, in order, through
    [crc := table[b xor bottomByte(crc)] xor (crc >> 8)], starting from the
    initial register; for width 24 the fold starts from the low 24 bits of
    the initial register. *)
Theorem reflected_update_refines (bo : byte_order) (f : crcfun)
  (data : list byte) (r : Z) (table : list byte) :
  reflected f = true -> 16 <= width f ->
  valid_table f table -> is_register f r ->
  fst (call bo f data r table)
  = Return (Spec.reflected_update (Spec.table_entries bo (width f) table)
              (Spec.mask (width f) r) data).
Proof.
  intros Hn Hw Hv Hr.
  rewrite (call_valid bo f table Hv data r Hr). cbn [fst].
  destruct (reflected_shape f r Hn Hw) as [E _].
  destruct (reflected_shape f (fold_of bo f table (sh_init (shape_of f) r) data)
              Hn Hw) as [_ ->].
  pose proof (init_range f r Hr) as Hr'. rewrite E in *.
  unfold Spec.reflected_update, fold_of. f_equal.
  apply (fold_left_inv_ext (is_register f)).
  - intros c b Hc. apply reflected_next; assumption.
  - intros c b Hc. apply variant_inv_next; assumption.
  - exact Hr'.
Qed.

Lemma reflected_update_refines_witness :
  reflected Crc24r = true /\ 16 <= width Crc24r
  /\ valid_table Crc24r (zero_table 1024) /\ is_register Crc24r 0x1000000
  /\ fst (call LittleEndian Crc24r [x00] 0x1000000 (zero_table 1024))
     = Return (Spec.reflected_update
                 (Spec.table_entries LittleEndian 24 (zero_table 1024))
                 0 [x00]).
Proof.
  assert (Hn : reflected Crc24r = true) by reflexivity.
  assert (Hw : 16 <= width Crc24r) by (simpl; lia).
  assert (Hv : valid_table Crc24r (zero_table 1024)) by reflexivity.
  assert (Hr : is_register Crc24r 0x1000000)
    by (unfold is_register; simpl; lia).
  repeat (split; [assumption|]).
  apply (reflected_update_refines LittleEndian Crc24r [x00] 0x1000000
           (zero_table 1024) Hn Hw Hv Hr).
Defined.

(** C2 as stated fails for width 24: from the initial register
    [0x1000000], over one zero byte and a table of zeros, the recurrence
    gives [0x10000] while [_crc24r], which first clears bits 24 to 31,
    returns 0. *)
Lemma reflected_update_counterexample :
  reflected Crc24r = true /\ 16 <= width Crc24r
  /\ valid_table Crc24r (zero_table 1024) /\ is_register Crc24r 0x1000000
  /\ fst (call LittleEndian Crc24r [x00] 0x1000000 (zero_table 1024))
     = Return 0
  /\ Spec.reflected_update
       (Spec.table_entries LittleEndian 24 (zero_table 1024))
       0x1000000 [x00] = 0x10000
  /\ fst (call LittleEndian Crc24r [x00] 0x1000000 (zero_table 1024))
     <> Return (Spec.reflected_update
                  (Spec.table_entries LittleEndian 24 (zero_table 1024))
                  0x1000000 [x00]).
Proof.
  split; [reflexivity|]. split; [simpl; lia|]. split; [reflexivity|].
  split; [unfold is_register; simpl; lia|].
  split; [vm_compute; reflexivity|]. split; [vm_compute; reflexivity|].
  vm_compute. discriminate.
Qed.

(** ** Accumulating in chunks *)

Lemma fold_of_app (bo : byte_order) (f : crcfun) (table : list byte) (c : Z)
  (A B : list byte) :
  fold_of bo f table c (A ++ B)
  = fold_of bo f table (fold_of bo f table c A) B.
Proof. unfold fold_of. apply fold_left_app. Qed.

Lemma conv_range (f : crcfun) (x : Z) :
  is_register f x -> is_register f (conv_of f x).
Proof.
  intros Hx. destruct f; cbn [conv_of]; try exact Hx.
  pose proof (land_mask24_range x). unfold is_register. simpl. lia.
Qed.

(** With entries of at most 24 bits the register of [_crc24r] stays
    within 24 bits. *)
Lemma crc24r_next_fit (bo : byte_order) (table : list byte) (c : Z) (b : byte) :
  valid_table Crc24r table -> entries_fit24 bo table ->
  0 <= c < 2 ^ 24 ->
  0 <= next bo 4 (fun d crc => Z.lxor d (BYTE0 crc))
         (fun t crc => Z.lxor t (Z.shiftr crc 8)) table c b < 2 ^ 24.
Proof.
  intros Hv Hfit Hc.
  assert (Hreg : is_register Crc24r c) by (unfold is_register; simpl; lia).
  pose proof (index_range Crc24r (byte_val b) c (byte_val_range b) Hreg) as Hi.
  destruct (variant_entry bo Crc24r table Hv _ Hi) as [E R].
  cbn [shape_of sh_size sh_index] in *.
  unfold next. apply lxor_range; [lia| |apply shiftr8_range; exact Hc].
  split; [apply R|]. rewrite E. unfold Spec.lookup.
  assert (H : nth (Z.to_nat (Z.lxor (byte_val b) (BYTE0 c)))
                (Spec.table_entries bo (width Crc24r) table) 0 <= 0xFFFFFF).
  { destruct (nth_in_or_default (Z.to_nat (Z.lxor (byte_val b) (BYTE0 c)))
                (Spec.table_entries bo (width Crc24r) table) 0) as [Hin| ->].
    - unfold entries_fit24 in Hfit. rewrite Forall_forall in Hfit.
      apply Hfit. exact Hin.
    - lia. }
  lia.
Qed.

Lemma crc24r_fold_fit (bo : byte_order) (table : list byte) (data : list byte)
  (c : Z) :
  valid_table Crc24r table -> entries_fit24 bo table ->
  0 <= c < 2 ^ 24 -> 0 <= fold_of bo Crc24r table c data < 2 ^ 24.
Proof.
  intros Hv Hfit. revert c. unfold fold_of. cbn [shape_of sh_size sh_index
    sh_combine].
  induction data as [|b data IH]; intros c Hc; simpl; [exact Hc|].
  apply IH. apply crc24r_next_fit; assumption.
Qed.

(** Resuming from a returned register continues the fold. *)
Lemma resume_fold (bo : byte_order) (f : crcfun) (table : list byte) (x : Z)
  (B : list byte) :
  (f = Crc24r -> 0 <= x < 2 ^ 24) ->
  conv_of f (fold_of bo f table (sh_init (shape_of f) (conv_of f x)) B)
  = conv_of f (fold_of bo f table x B).
Proof.
  intros Hfit. destruct f; try reflexivity.
  - (* _crc24 *)
    cbn [shape_of conv_of sh_init]. destruct B as [|b B].
    + unfold fold_of. simpl fold_left.
      rewrite !land_mask24. apply Z.mod_mod. lia.
    + unfold fold_of. cbn [fold_left shape_of sh_size sh_index sh_combine].
      unfold next at 2 4. rewrite BYTE2_low24, shl8_low24. reflexivity.
  - (* _crc24r *)
    cbn [shape_of conv_of sh_init].
    rewrite land_mask24_small by (specialize (Hfit eq_refl); lia).
    reflexivity.
Qed.

(** C3, as the code has it.  With a table of the valid length, updating
    the register with [A] and the returned register with [B] returns the
    register of one update with [A ++ B], for every function but
    [_crc24r] whatever the table holds, and for [_crc24r] when no table
    entry exceeds [0xFFFFFF]. *)
Theorem chunked_update (bo : byte_order) (f : crcfun) (A B : list byte)
  (r : Z) (table : list byte) :
  valid_table f table -> is_register f r ->
  (f = Crc24r -> entries_fit24 bo table) ->
  exists v, fst (call bo f A r table) = Return v
            /\ fst (call bo f B v table) = fst (call bo f (A ++ B) r table).
Proof.
  intros Hv Hr Hfit.
  pose proof (init_range f r Hr) as Hi.
  pose proof (fold_of_register bo f table Hv A _ Hi) as Hx.
  exists (conv_of f (fold_of bo f table (sh_init (shape_of f) r) A)).
  rewrite (call_valid bo f table Hv A r Hr).
  rewrite (call_valid bo f table Hv (A ++ B) r Hr).
  rewrite (call_valid bo f table Hv B _ (conv_range f _ Hx)).
  cbn [fst]. split; [reflexivity|]. f_equal.
  rewrite fold_of_app. apply resume_fold.
  intros ->. apply crc24r_fold_fit; [exact Hv|apply Hfit; reflexivity|].
  cbn [shape_of sh_init]. pose proof (land_mask24_range r). lia.
Qed.

Lemma zero_table_fits : entries_fit24 LittleEndian (zero_table 1024).
Proof.
  unfold entries_fit24. apply Forall_forall. intros t Ht.
  apply Z.leb_le. revert t Ht. apply forallb_forall.
  vm_compute. reflexivity.
Defined.

Lemma chunked_update_witness :
  valid_table Crc24r (zero_table 1024) /\ is_register Crc24r 0xFFFFFFFF
  /\ (Crc24r = Crc24r -> entries_fit24 LittleEndian (zero_table 1024))
  /\ exists v,
       fst (call LittleEndian Crc24r [x31; x32] 0xFFFFFFFF (zero_table 1024))
       = Return v
       /\ fst (call LittleEndian Crc24r [x33] v (zero_table 1024))
          = fst (call LittleEndian Crc24r ([x31; x32] ++ [x33]) 0xFFFFFFFF
                   (zero_table 1024)).
Proof.
  assert (Hv : valid_table Crc24r (zero_table 1024)) by reflexivity.
  assert (Hr : is_register Crc24r 0xFFFFFFFF)
    by (unfold is_register; simpl; lia).
  assert (Hfit : Crc24r = Crc24r -> entries_fit24 LittleEndian (zero_table 1024))
    by (intros _; exact zero_table_fits).
  repeat (split; [assumption|]).
  apply (chunked_update LittleEndian Crc24r [x31; x32] [x33] 0xFFFFFFFF
           (zero_table 1024) Hv Hr Hfit).
Defined.

(** C3 as stated fails for [_crc24r] with a table of the valid length whose
    entry 0 is [0x01000000]: two updates with one zero byte each return
    [0x1000000], one update with the two bytes returns [0x1010000]. *)
Lemma chunked_update_counterexample :
  valid_table Crc24r high_byte_table /\ is_register Crc24r 0
  /\ fst (call LittleEndian Crc24r [x00] 0 high_byte_table) = Return 0x1000000
  /\ fst (call LittleEndian Crc24r [x00] 0x1000000 high_byte_table)
     = Return 0x1000000
  /\ fst (call LittleEndian Crc24r ([x00] ++ [x00]) 0 high_byte_table)
     = Return 0x1010000
  /\ ~ (exists v,
          fst (call LittleEndian Crc24r [x00] 0 high_byte_table) = Return v
          /\ fst (call LittleEndian Crc24r [x00] v high_byte_table)
             = fst (call LittleEndian Crc24r ([x00] ++ [x00]) 0
                      high_byte_table)).
Proof.
  assert (E1 : fst (call LittleEndian Crc24r [x00] 0 high_byte_table)
               = Return 0x1000000) by (vm_compute; reflexivity).
  assert (E2 : fst (call LittleEndian Crc24r [x00] 0x1000000 high_byte_table)
               = Return 0x1000000) by (vm_compute; reflexivity).
  assert (E3 : fst (call LittleEndian Crc24r ([x00] ++ [x00]) 0
                      high_byte_table)
               = Return 0x1010000) by (vm_compute; reflexivity).
  split; [reflexivity|]. split; [unfold is_register; simpl; lia|].
  repeat (split; [assumption|]).
  intros [v [Hv Hb]]. rewrite E1 in Hv. injection Hv as <-.
  rewrite E2, E3 in Hb. discriminate Hb.
Qed.

(** ** The range of the 24-bit register *)

Lemma call24_range (bo : byte_order) (f : crcfun) (data : list byte) (r : Z)
  (table : list byte) :
  width f = 24 -> valid_table f table -> is_register f r ->
  (reflected f = true -> entries_fit24 bo table) ->
  exists v, fst (call bo f data r table) = Return v /\ 0 <= v <= 0xFFFFFF.
Proof.
  intros Hw Hv Hr Hfit.
  rewrite (call_valid bo f table Hv data r Hr). cbn [fst].
  eexists. split; [reflexivity|].
  destruct f; try discriminate Hw; cbn [shape_of conv_of sh_init].
  - apply land_mask24_range.
  - pose proof (land_mask24_range r).
    pose proof (crc24r_fold_fit bo table data (Z.land r 0xFFFFFF) Hv
                  (Hfit eq_refl)).
    lia.
Qed.

(** C5, as the code has it.  After any sequence of one or more updates
    with a table of the valid length, from any initial register of the
    32-bit carrier, the register returned by [_crc24] lies in
    [0 .. 0xFFFFFF]; the register returned by [_crc24r] does when no table
    entry exceeds [0xFFFFFF]. *)
Theorem crc24_register_range (bo : byte_order) (f : crcfun)
  (table : list byte) (chunks : list (list byte)) :
  width f = 24 -> valid_table f table ->
  (reflected f = true -> entries_fit24 bo table) ->
  forall (chunk : list byte) (r : Z),
    is_register f r ->
    exists v, updates bo f table r (chunk :: chunks) = Return v
              /\ 0 <= v <= 0xFFFFFF.
Proof.
  intros Hw Hv Hfit.
  induction chunks as [|c' chunks IH]; intros chunk r Hr;
    destruct (call24_range bo f chunk r table Hw Hv Hr Hfit) as [v [E Hrange]].
  - exists v. cbn [updates]. rewrite E. split; [reflexivity|exact Hrange].
  - cbn [updates] in *. rewrite E. apply IH.
    unfold is_register. rewrite Hw. simpl. lia.
Qed.

Lemma crc24_register_range_witness :
  width Crc24r = 24 /\ valid_table Crc24r (zero_table 1024)
  /\ (reflected Crc24r = true -> entries_fit24 LittleEndian (zero_table 1024))
  /\ is_register Crc24r 0xFFFFFFFF
  /\ exists v,
       updates LittleEndian Crc24r (zero_table 1024) 0xFFFFFFFF
         ([x31] :: [[x32; x33]]) = Return v
       /\ 0 <= v <= 0xFFFFFF.
Proof.
  assert (Hw : width Crc24r = 24) by reflexivity.
  assert (Hv : valid_table Crc24r (zero_table 1024)) by reflexivity.
  assert (Hfit : reflected Crc24r = true
                 -> entries_fit24 LittleEndian (zero_table 1024))
    by (intros _; exact zero_table_fits).
  assert (Hr : is_register Crc24r 0xFFFFFFFF)
    by (unfold is_register; simpl; lia).
  repeat (split; [assumption|]).
  apply (crc24_register_range LittleEndian Crc24r (zero_table 1024)
           [[x32; x33]] Hw Hv Hfit [x31] 0xFFFFFFFF Hr).
Defined.

(** C5 as stated fails for [_crc24r] with a table of the valid length whose
    entry 0 is [0x01000000]: one update with a zero byte from register 0
    returns [0x1000000], above [0xFFFFFF]. *)
Lemma crc24_register_range_counterexample :
  width Crc24r = 24 /\ valid_table Crc24r high_byte_table
  /\ is_register Crc24r 0
  /\ updates LittleEndian Crc24r high_byte_table 0 [[x00]] = Return 0x1000000
  /\ ~ (exists v,
          updates LittleEndian Crc24r high_byte_table 0 [[x00]] = Return v
          /\ 0 <= v <= 0xFFFFFF).
Proof.
  assert (E : updates LittleEndian Crc24r high_byte_table 0 [[x00]]
              = Return 0x1000000) by (vm_compute; reflexivity).
  split; [reflexivity|]. split; [reflexivity|].
  split; [unfold is_register; simpl; lia|]. split; [exact E|].
  intros [v [Hv Hrange]]. rewrite E in Hv. injection Hv as <-. lia.
Qed.

(** ** Further properties of the ten functions *)

(** With a table of the valid length every function returns a value of
    the type of its register, and every function but [_crc24r] a value of
    the width of its CRC. *)
Theorem result_in_range (bo : byte_order) (f : crcfun) (data : list byte)
  (r : Z) (table : list byte) :
  valid_table f table -> is_register f r ->
  exists v, fst (call bo f data r table) = Return v
            /\ is_register f v
            /\ (f <> Crc24r -> 0 <= v < 2 ^ width f).
Proof.
  intros Hv Hr.
  pose proof (fold_of_register bo f table Hv data _ (init_range f r Hr)) as Hx.
  rewrite (call_valid bo f table Hv data r Hr). cbn [fst].
  eexists. split; [reflexivity|]. split; [apply conv_range, Hx|].
  intros Hf. destruct f; try contradiction; try exact Hx.
  cbn [conv_of width].
  pose proof (land_mask24_range
                (fold_of bo Crc24 table (sh_init (shape_of Crc24) r) data)).
  lia.
Qed.

Lemma result_in_range_witness :
  valid_table Crc16 (zero_table 512) /\ is_register Crc16 0xFFFF
  /\ exists v,
       fst (call BigEndian Crc16 [x31; x32] 0xFFFF (zero_table 512)) = Return v
       /\ is_register Crc16 v
       /\ (Crc16 <> Crc24r -> 0 <= v < 2 ^ width Crc16).
Proof.
  assert (Hv : valid_table Crc16 (zero_table 512)) by reflexivity.
  assert (Hr : is_register Crc16 0xFFFF) by (unfold is_register; simpl; lia).
  repeat (split; [assumption|]).
  apply (result_in_range BigEndian Crc16 [x31; x32] 0xFFFF (zero_table 512)
           Hv Hr).
Defined.

(** [_crc24r] is [_crc32r] run from the low 24 bits of the register: the
    two functions have the same loop, and [_crc24r] clears bits 24 to 31
    of the initial register first.  So [_crc24r] does not look at those
    bits either. *)
Theorem crc24r_is_masked_crc32r (bo : byte_order) (data : list byte) (r : Z)
  (table : list byte) :
  is_register Crc24r r ->
  _crc24r bo data r table = _crc32r bo data (Z.land r 0xFFFFFF) table.
Proof.
  intros Hr.
  destruct (Z.eq_dec (Z.of_nat (length table)) (256 * 4)) as [Hv|Hv].
  - assert (Hm : is_register Crc32r (Z.land r 0xFFFFFF)).
    { pose proof (land_mask24_range r). unfold is_register. simpl. lia. }
    change (_crc24r bo data r table) with (call bo Crc24r data r table).
    change (_crc32r bo data (Z.land r 0xFFFFFF) table)
      with (call bo Crc32r data (Z.land r 0xFFFFFF) table).
    rewrite (call_valid bo Crc24r table Hv data r Hr).
    rewrite (call_valid bo Crc32r table Hv data _ Hm). reflexivity.
  - change (_crc24r bo data r table) with (call bo Crc24r data r table).
    change (_crc32r bo data (Z.land r 0xFFFFFF) table)
      with (call bo Crc32r data (Z.land r 0xFFFFFF) table).
    rewrite (call_invalid bo Crc24r data r table Hv).
    rewrite (call_invalid bo Crc32r data _ table Hv). reflexivity.
Qed.

Lemma crc24r_is_masked_crc32r_witness :
  is_register Crc24r 0xFF123456
  /\ _crc24r LittleEndian check_input 0xFF123456 high_byte_table
     = _crc32r LittleEndian check_input (Z.land 0xFF123456 0xFFFFFF)
         high_byte_table.
Proof.
  assert (Hr : is_register Crc24r 0xFF123456)
    by (unfold is_register; simpl; lia).
  split; [exact Hr|].
  apply (crc24r_is_masked_crc32r LittleEndian check_input 0xFF123456
           high_byte_table Hr).
Defined.

(** The register returned for [A] continues with [B] as the register of
    one call with [A ++ B]. *)
Lemma call_app (bo : byte_order) (f : crcfun) (A B : list byte) (r v : Z)
  (table : list byte) :
  valid_table f table -> is_register f r ->
  (f = Crc24r -> entries_fit24 bo table) ->
  fst (call bo f A r table) = Return v ->
  is_register f v
  /\ fst (call bo f B v table) = fst (call bo f (A ++ B) r table).
Proof.
  intros Hv Hr Hfit HA.
  pose proof (init_range f r Hr) as Hi.
  pose proof (fold_of_register bo f table Hv A _ Hi) as Hx.
  rewrite (call_valid bo f table Hv A r Hr) in HA. cbn [fst] in HA.
  injection HA as <-.
  split; [apply conv_range, Hx|].
  rewrite (call_valid bo f table Hv (A ++ B) r Hr).
  rewrite (call_valid bo f table Hv B _ (conv_range f _ Hx)).
  cbn [fst]. f_equal. rewrite fold_of_app. apply resume_fold.
  intros ->. apply crc24r_fold_fit; [exact Hv|apply Hfit; reflexivity|].
  cbn [shape_of sh_init]. pose proof (land_mask24_range r). lia.
Qed.

(** Any number of chunks: feeding the chunks one call after the other,
    each from the register the call before returned, returns the register
    of one call on their concatenation ([_crc24r]: when no table entry
    exceeds [0xFFFFFF]). *)
Theorem updates_concat (bo : byte_order) (f : crcfun) (table : list byte)
  (chunks : list (list byte)) :
  valid_table f table -> (f = Crc24r -> entries_fit24 bo table) ->
  forall (chunk : list byte) (r : Z),
    is_register f r ->
    updates bo f table r (chunk :: chunks)
    = fst (call bo f (concat (chunk :: chunks)) r table).
Proof.
  intros Hv Hfit.
  induction chunks as [|c' chunks IH]; intros chunk r Hr.
  - cbn [updates concat]. rewrite app_nil_r.
    destruct (fst (call bo f chunk r table)); reflexivity.
  - change (concat (chunk :: c' :: chunks))
      with (chunk ++ concat (c' :: chunks)).
    cbn [updates]. cbn [updates] in IH.
    destruct (fst (call bo f chunk r table)) as [v| | |] eqn:E;
      try (rewrite (call_valid bo f table Hv chunk r Hr) in E;
           discriminate E).
    destruct (call_app bo f chunk (concat (c' :: chunks)) r v table
                Hv Hr Hfit E) as [Hreg <-].
    apply IH, Hreg.
Qed.

Lemma updates_concat_witness :
  valid_table Crc32r (reflected_table LittleEndian 4 0xEDB88320)
  /\ (Crc32r = Crc24r
      -> entries_fit24 LittleEndian (reflected_table LittleEndian 4 0xEDB88320))
  /\ is_register Crc32r 0xFFFFFFFF
  /\ updates LittleEndian Crc32r (reflected_table LittleEndian 4 0xEDB88320)
       0xFFFFFFFF ([x31; x32; x33] :: [[x34]; []; [x35; x36; x37; x38; x39]])
     = fst (call LittleEndian Crc32r
              (concat ([x31; x32; x33]
                         :: [[x34]; []; [x35; x36; x37; x38; x39]]))
              0xFFFFFFFF (reflected_table LittleEndian 4 0xEDB88320)).
Proof.
  assert (Hv : valid_table Crc32r (reflected_table LittleEndian 4 0xEDB88320))
    by (vm_compute; reflexivity).
  assert (Hfit : Crc32r = Crc24r
                 -> entries_fit24 LittleEndian
                      (reflected_table LittleEndian 4 0xEDB88320))
    by (intros H; discriminate H).
  assert (Hr : is_register Crc32r 0xFFFFFFFF)
    by (unfold is_register; simpl; lia).
  repeat (split; [assumption|]).
  apply (updates_concat LittleEndian Crc32r
           (reflected_table LittleEndian 4 0xEDB88320)
           [[x34]; []; [x35; x36; x37; x38; x39]] Hv Hfit
           [x31; x32; x33] 0xFFFFFFFF Hr).
Defined.

(** Two loops whose steps agree on every register of the invariant read
    the same. *)
Lemma reads_inv_ext (bo1 bo2 : byte_order) (size : nat)
  (index combine : Z -> Z -> Z) (t1 t2 : list byte) (inv : Z -> Prop) :
  (forall c b, inv c ->
     next bo1 size index combine t1 c b = next bo2 size index combine t2 c b) ->
  (forall c b, inv c -> inv (next bo1 size index combine t1 c b)) ->
  forall bs pos c, inv c ->
    reads bo1 size index combine t1 pos c bs
    = reads bo2 size index combine t2 pos c bs.
Proof.
  intros Hext Hinv. induction bs as [|b bs IH]; intros pos c Hc; simpl.
  - reflexivity.
  - rewrite <- (Hext c b Hc). rewrite (IH (S pos) _ (Hinv c b Hc)).
    reflexivity.
Qed.

(** A call depends on its table through the 256 integers the table holds
    only: two buffers of the valid length that decode to the same entries,
    each in its byte order, give the same result and the same reads. *)
Theorem same_entries_same_outcome (bo1 bo2 : byte_order) (f : crcfun)
  (data : list byte) (r : Z) (t1 t2 : list byte) :
  valid_table f t1 -> valid_table f t2 -> is_register f r ->
  Spec.table_entries bo1 (width f) t1 = Spec.table_entries bo2 (width f) t2 ->
  call bo1 f data r t1 = call bo2 f data r t2.
Proof.
  intros Hv1 Hv2 Hr Hent.
  assert (Hnext : forall c b, is_register f c ->
            next bo1 (sh_size (shape_of f)) (sh_index (shape_of f))
              (sh_combine (shape_of f)) t1 c b
            = next bo2 (sh_size (shape_of f)) (sh_index (shape_of f))
                (sh_combine (shape_of f)) t2 c b).
  { intros c b Hc. unfold next.
    pose proof (index_range f (byte_val b) c (byte_val_range b) Hc) as Hi.
    destruct (variant_entry bo1 f t1 Hv1 _ Hi) as [-> _].
    destruct (variant_entry bo2 f t2 Hv2 _ Hi) as [-> _].
    rewrite Hent. reflexivity. }
  pose proof (init_range f r Hr) as Hi.
  rewrite (call_valid bo1 f t1 Hv1 data r Hr).
  rewrite (call_valid bo2 f t2 Hv2 data r Hr).
  unfold fold_of, reads_of. f_equal.
  - do 2 f_equal.
    apply (fold_left_inv_ext (is_register f)); [exact Hnext| |exact Hi].
    intros c b Hc. apply variant_inv_next; assumption.
  - apply (reads_inv_ext bo1 bo2 _ _ _ t1 t2 (is_register f));
      [exact Hnext| |exact Hi].
    intros c b Hc. apply variant_inv_next; assumption.
Qed.

Lemma same_entries_same_outcome_witness :
  valid_table Crc16 (normal_table LittleEndian 2 16 0x1021)
  /\ valid_table Crc16 (normal_table BigEndian 2 16 0x1021)
  /\ is_register Crc16 0
  /\ Spec.table_entries LittleEndian (width Crc16)
       (normal_table LittleEndian 2 16 0x1021)
     = Spec.table_entries BigEndian (width Crc16)
         (normal_table BigEndian 2 16 0x1021)
  /\ call LittleEndian Crc16 check_input 0
       (normal_table LittleEndian 2 16 0x1021)
     = call BigEndian Crc16 check_input 0 (normal_table BigEndian 2 16 0x1021).
Proof.
  assert (Hv1 : valid_table Crc16 (normal_table LittleEndian 2 16 0x1021))
    by (vm_compute; reflexivity).
  assert (Hv2 : valid_table Crc16 (normal_table BigEndian 2 16 0x1021))
    by (vm_compute; reflexivity).
  assert (Hr : is_register Crc16 0) by (unfold is_register; simpl; lia).
  assert (Hent : Spec.table_entries LittleEndian (width Crc16)
                   (normal_table LittleEndian 2 16 0x1021)
                 = Spec.table_entries BigEndian (width Crc16)
                     (normal_table BigEndian 2 16 0x1021))
    by (vm_compute; reflexivity).
  repeat (split; [assumption|]).
  apply (same_entries_same_outcome LittleEndian BigEndian Crc16 check_input 0
           _ _ Hv1 Hv2 Hr Hent).
Defined.

(** ** Exclusive or of inputs *)

Lemma byte_val_of_Z (x : Z) : 0 <= x < 256 -> byte_val (byte_of_Z x) = x.
Proof.
  intros Hx. unfold byte_val, byte_of_Z. rewrite Z.mod_small by exact Hx.
  destruct (Byte.of_N (Z.to_N x)) as [b|] eqn:E.
  - apply Byte.to_of_N in E. rewrite E. lia.
  - apply Byte.of_N_None_iff in E. lia.
Qed.

Lemma byte_val_xor (a b : byte) :
  byte_val (byte_xor a b) = Z.lxor (byte_val a) (byte_val b).
Proof.
  unfold byte_xor. apply byte_val_of_Z. change 256 with (2 ^ 8).
  apply lxor_range; [lia|apply byte_val_range..].
Qed.

Lemma xor_linearb_sound (entries : list Z) :
  xor_linearb entries = true -> xor_linear entries.
Proof.
  unfold xor_linearb, xor_linear. intros H i j Hi Hj.
  rewrite forallb_forall in H.
  assert (In256 : forall k, 0 <= k < 256 -> In k (map Z.of_nat (seq 0 256))).
  { intros k Hk. apply in_map_iff. exists (Z.to_nat k).
    split; [lia|]. apply in_seq. lia. }
  specialize (H i (In256 i Hi)). rewrite forallb_forall in H.
  apply Z.eqb_eq. apply H, In256, Hj.
Qed.

Lemma index_linear (f : crcfun) (d1 d2 c1 c2 : Z) :
  sh_index (shape_of f) (Z.lxor d1 d2) (Z.lxor c1 c2)
  = Z.lxor (sh_index (shape_of f) d1 c1) (sh_index (shape_of f) d2 c2).
Proof.
  destruct f; cbn [shape_of sh_index];
    unfold BYTE0, BYTE1, BYTE2, BYTE3, BYTE7, UINT8; bits.
Qed.

Lemma combine_linear (f : crcfun) (t1 t2 c1 c2 : Z) :
  sh_combine (shape_of f) (Z.lxor t1 t2) (Z.lxor c1 c2)
  = Z.lxor (sh_combine (shape_of f) t1 c1) (sh_combine (shape_of f) t2 c2).
Proof.
  destruct f; cbn [shape_of sh_combine]; try reflexivity;
    unfold UINT16, UINT32, UINT64; bits.
Qed.

Lemma init_linear (f : crcfun) (c1 c2 : Z) :
  sh_init (shape_of f) (Z.lxor c1 c2)
  = Z.lxor (sh_init (shape_of f) c1) (sh_init (shape_of f) c2).
Proof.
  destruct f; cbn [shape_of sh_init]; try reflexivity.
  change 0xFFFFFF with (Z.ones 24). bits.
Qed.

Lemma conv_linear (f : crcfun) (c1 c2 : Z) :
  conv_of f (Z.lxor c1 c2) = Z.lxor (conv_of f c1) (conv_of f c2).
Proof.
  destruct f; cbn [conv_of]; try reflexivity.
  change 0xFFFFFF with (Z.ones 24). bits.
Qed.

Lemma register_xor (f : crcfun) (c1 c2 : Z) :
  is_register f c1 -> is_register f c2 -> is_register f (Z.lxor c1 c2).
Proof.
  intros H1 H2. apply lxor_range; [|exact H1|exact H2].
  destruct f; vm_compute; discriminate.
Qed.

Lemma fold_linear (bo : byte_order) (f : crcfun) (table : list byte) :
  valid_table f table ->
  xor_linear (Spec.table_entries bo (width f) table) ->
  forall (A B : list byte) (c1 c2 : Z),
    length A = length B -> is_register f c1 -> is_register f c2 ->
    fold_of bo f table (Z.lxor c1 c2) (xor_bytes A B)
    = Z.lxor (fold_of bo f table c1 A) (fold_of bo f table c2 B).
Proof.
  intros Hv Hlin. unfold fold_of.
  induction A as [|a A IH]; intros [|b B] c1 c2 Hlen H1 H2;
    try discriminate Hlen; [reflexivity|].
  cbn [xor_bytes fold_left].
  assert (Hstep :
            next bo (sh_size (shape_of f)) (sh_index (shape_of f))
              (sh_combine (shape_of f)) table (Z.lxor c1 c2) (byte_xor a b)
            = Z.lxor
                (next bo (sh_size (shape_of f)) (sh_index (shape_of f))
                   (sh_combine (shape_of f)) table c1 a)
                (next bo (sh_size (shape_of f)) (sh_index (shape_of f))
                   (sh_combine (shape_of f)) table c2 b)).
  { unfold next.
    pose proof (index_range f (byte_val a) c1 (byte_val_range a) H1) as Hi1.
    pose proof (index_range f (byte_val b) c2 (byte_val_range b) H2) as Hi2.
    pose proof (index_range f (byte_val (byte_xor a b)) (Z.lxor c1 c2)
                  (byte_val_range _) (register_xor f c1 c2 H1 H2)) as Hi.
    destruct (variant_entry bo f table Hv _ Hi1) as [-> _].
    destruct (variant_entry bo f table Hv _ Hi2) as [-> _].
    destruct (variant_entry bo f table Hv _ Hi) as [-> _].
    rewrite byte_val_xor, index_linear, (Hlin _ _ Hi1 Hi2).
    apply combine_linear. }
  rewrite Hstep. apply IH.
  - simpl in Hlen. lia.
  - apply variant_inv_next; assumption.
  - apply variant_inv_next; assumption.
Qed.

(** With a table of the valid length whose entries are linear for the
    exclusive or, every function is linear as well: for two inputs of the
    same length, the register returned for their bytewise exclusive or,
    from the exclusive or of the two initial registers, is the exclusive
    or of the two registers returned. *)
Theorem update_xor_linear (bo : byte_order) (f : crcfun) (A B : list byte)
  (r1 r2 : Z) (table : list byte) :
  valid_table f table ->
  xor_linear (Spec.table_entries bo (width f) table) ->
  is_register f r1 -> is_register f r2 -> length A = length B ->
  exists v1 v2,
    fst (call bo f A r1 table) = Return v1
    /\ fst (call bo f B r2 table) = Return v2
    /\ fst (call bo f (xor_bytes A B) (Z.lxor r1 r2) table)
       = Return (Z.lxor v1 v2).
Proof.
  intros Hv Hlin H1 H2 Hlen.
  rewrite (call_valid bo f table Hv A r1 H1).
  rewrite (call_valid bo f table Hv B r2 H2).
  rewrite (call_valid bo f table Hv _ _ (register_xor f r1 r2 H1 H2)).
  cbn [fst]. do 2 eexists. split; [reflexivity|]. split; [reflexivity|].
  f_equal. rewrite init_linear.
  rewrite (fold_linear bo f table Hv Hlin A B _ _ Hlen
             (init_range f r1 H1) (init_range f r2 H2)).
  apply conv_linear.
Qed.

Lemma crc32_table_linear :
  xor_linear
    (Spec.table_entries LittleEndian (width Crc32r)
       (reflected_table LittleEndian 4 0xEDB88320)).
Proof. apply xor_linearb_sound. vm_compute. reflexivity. Defined.

Lemma update_xor_linear_witness :
  valid_table Crc32r (reflected_table LittleEndian 4 0xEDB88320)
  /\ xor_linear
       (Spec.table_entries LittleEndian (width Crc32r)
          (reflected_table LittleEndian 4 0xEDB88320))
  /\ is_register Crc32r 0xFFFFFFFF /\ is_register Crc32r 0x12345678
  /\ length [x31; x32; x33] = length [x00; xff; x80]
  /\ exists v1 v2,
       fst (call LittleEndian Crc32r [x31; x32; x33] 0xFFFFFFFF
              (reflected_table LittleEndian 4 0xEDB88320)) = Return v1
       /\ fst (call LittleEndian Crc32r [x00; xff; x80] 0x12345678
                 (reflected_table LittleEndian 4 0xEDB88320)) = Return v2
       /\ fst (call LittleEndian Crc32r
                 (xor_bytes [x31; x32; x33] [x00; xff; x80])
                 (Z.lxor 0xFFFFFFFF 0x12345678)
                 (reflected_table LittleEndian 4 0xEDB88320))
          = Return (Z.lxor v1 v2).
Proof.
  assert (Hv : valid_table Crc32r (reflected_table LittleEndian 4 0xEDB88320))
    by (vm_compute; reflexivity).
  assert (H1 : is_register Crc32r 0xFFFFFFFF)
    by (unfold is_register; simpl; lia).
  assert (H2 : is_register Crc32r 0x12345678)
    by (unfold is_register; simpl; lia).
  assert (Hlen : length [x31; x32; x33] = length [x00; xff; x80])
    by reflexivity.
  split; [exact Hv|]. split; [exact crc32_table_linear|].
  repeat (split; [assumption|]).
  apply (update_xor_linear LittleEndian Crc32r [x31; x32; x33]
           [x00; xff; x80] 0xFFFFFFFF 0x12345678 _ Hv crc32_table_linear
           H1 H2 Hlen).
Defined.

(** ** Zero bytes and changed bytes *)

Lemma fold_zeros (bo : byte_order) (f : crcfun) (table : list byte) (n : nat) :
  valid_table f table ->
  Spec.lookup (Spec.table_entries bo (width f) table) 0 = 0 ->
  fold_of bo f table 0 (repeat x00 n) = 0.
Proof.
  intros Hv H0. unfold fold_of.
  induction n as [|n IH]; [reflexivity|].
  cbn [repeat fold_left].
  assert (E : next bo (sh_size (shape_of f)) (sh_index (shape_of f))
                (sh_combine (shape_of f)) table 0 x00 = 0).
  { unfold next.
    assert (Ei : sh_index (shape_of f) (byte_val x00) 0 = 0)
      by (destruct f; reflexivity).
    rewrite Ei.
    destruct (variant_entry bo f table Hv 0 ltac:(lia)) as [-> _].
    rewrite H0. destruct f; reflexivity. }
  rewrite E. exact IH.
Qed.

(** With a table of the valid length whose entry 0 is 0, zero bytes leave
    a zero register at zero: any number of zero bytes in front of the
    input does not change the register returned from the initial register
    0, and an input of zero bytes only returns 0. *)
Theorem leading_zeros_unseen (bo : byte_order) (f : crcfun) (n : nat)
  (data : list byte) (table : list byte) :
  valid_table f table ->
  Spec.lookup (Spec.table_entries bo (width f) table) 0 = 0 ->
  fst (call bo f (repeat x00 n ++ data) 0 table)
  = fst (call bo f data 0 table)
  /\ fst (call bo f (repeat x00 n) 0 table) = Return 0.
Proof.
  intros Hv H0.
  assert (Hr : is_register f 0) by (destruct f; unfold is_register; simpl; lia).
  assert (Ei : sh_init (shape_of f) 0 = 0) by (destruct f; reflexivity).
  rewrite !(call_valid bo f table Hv _ 0 Hr). cbn [fst]. rewrite Ei.
  rewrite fold_of_app, (fold_zeros bo f table n Hv H0).
  split; [reflexivity|]. destruct f; reflexivity.
Qed.

Lemma leading_zeros_unseen_witness :
  valid_table Crc16 (normal_table BigEndian 2 16 0x1021)
  /\ Spec.lookup
       (Spec.table_entries BigEndian (width Crc16)
          (normal_table BigEndian 2 16 0x1021)) 0 = 0
  /\ fst (call BigEndian Crc16 (repeat x00 3 ++ check_input) 0
            (normal_table BigEndian 2 16 0x1021))
     = fst (call BigEndian Crc16 check_input 0
              (normal_table BigEndian 2 16 0x1021)).
Proof.
  assert (Hv : valid_table Crc16 (normal_table BigEndian 2 16 0x1021))
    by (vm_compute; reflexivity).
  assert (H0 : Spec.lookup
                 (Spec.table_entries BigEndian (width Crc16)
                    (normal_table BigEndian 2 16 0x1021)) 0 = 0)
    by (vm_compute; reflexivity).
  split; [exact Hv|]. split; [exact H0|].
  apply (leading_zeros_unseen BigEndian Crc16 3 check_input _ Hv H0).
Defined.

Lemma lxor_cancel_r (a b c : Z) : Z.lxor a c = Z.lxor b c -> a = b.
Proof.
  intros H. apply (f_equal (fun z => Z.lxor z c)) in H.
  rewrite !Z.lxor_assoc, Z.lxor_nilpotent, !Z.lxor_0_r in H. exact H.
Qed.

Lemma lxor_cancel_l (a b c : Z) : Z.lxor c a = Z.lxor c b -> a = b.
Proof.
  rewrite !(Z.lxor_comm c). apply lxor_cancel_r.
Qed.

Lemma byte_val_inj (a b : byte) : byte_val a = byte_val b -> a = b.
Proof.
  unfold byte_val. intros H. apply N2Z.inj in H.
  pose proof (Byte.of_to_N a) as Ha. rewrite H, Byte.of_to_N in Ha.
  injection Ha as ->. reflexivity.
Qed.

Lemma index_inj (f : crcfun) (d1 d2 c : Z) :
  sh_index (shape_of f) d1 c = sh_index (shape_of f) d2 c -> d1 = d2.
Proof.
  destruct f; cbn [shape_of sh_index]; apply lxor_cancel_r.
Qed.

Lemma distinct_entriesb_sound (entries : list Z) :
  distinct_entriesb entries = true -> distinct_entries entries.
Proof.
  unfold distinct_entriesb, distinct_entries. intros H i j Hi Hj E.
  rewrite forallb_forall in H.
  assert (In256 : forall k, 0 <= k < 256 -> In k (map Z.of_nat (seq 0 256))).
  { intros k Hk. apply in_map_iff. exists (Z.to_nat k).
    split; [lia|]. apply in_seq. lia. }
  specialize (H i (In256 i Hi)). rewrite forallb_forall in H.
  specialize (H j (In256 j Hj)). rewrite E, Z.eqb_refl in H.
  apply Z.eqb_eq. exact H.
Qed.

(** The new register, as returned, tells two table entries apart. *)
Lemma combine_conv_inj (f : crcfun) (t1 t2 c : Z) :
  0 <= t1 < 2 ^ (8 * Z.of_nat (sh_size (shape_of f))) ->
  0 <= t2 < 2 ^ (8 * Z.of_nat (sh_size (shape_of f))) ->
  (f = Crc24 -> t1 <= 0xFFFFFF /\ t2 <= 0xFFFFFF) ->
  conv_of f (sh_combine (shape_of f) t1 c)
  = conv_of f (sh_combine (shape_of f) t2 c) ->
  t1 = t2.
Proof.
  intros H1 H2 Hfit.
  destruct f; cbn [shape_of sh_combine sh_size conv_of] in *;
    try (intros E; exact E); try apply lxor_cancel_r.
  - (* _crc16 *)
    unfold UINT16. intros E.
    apply (lxor_cancel_r _ _ (Z.shiftl c 8 mod 2 ^ 16)).
    rewrite <- (Z.mod_small t1 (2 ^ 16)) at 1 by exact H1.
    rewrite <- (Z.mod_small t2 (2 ^ 16)) at 1 by exact H2.
    transitivity (Z.lxor t1 (Z.shiftl c 8) mod 2 ^ 16); [bits|].
    rewrite E. bits.
  - (* _crc16r *)
    unfold UINT16. intros E.
    apply (lxor_cancel_r _ _ (Z.shiftr c 8 mod 2 ^ 16)).
    rewrite <- (Z.mod_small t1 (2 ^ 16)) at 1 by exact H1.
    rewrite <- (Z.mod_small t2 (2 ^ 16)) at 1 by exact H2.
    transitivity (Z.lxor t1 (Z.shiftr c 8) mod 2 ^ 16); [bits|].
    rewrite E. bits.
  - (* _crc24 *)
    destruct (Hfit eq_refl) as [F1 F2]. rewrite !land_mask24. intros E.
    apply (lxor_cancel_r _ _ (UINT32 (Z.shiftl c 8) mod 2 ^ 24)).
    rewrite <- (Z.mod_small t1 (2 ^ 24)) at 1 by lia.
    rewrite <- (Z.mod_small t2 (2 ^ 24)) at 1 by lia.
    transitivity (Z.lxor t1 (UINT32 (Z.shiftl c 8)) mod 2 ^ 24); [bits|].
    rewrite E. bits.
Qed.

(** With a table of the valid length that has no two equal entries
    ([_crc24]: none above [0xFFFFFF] either), a change of the last input
    byte changes the register returned: two inputs that differ in their
    last byte only never return the same register. *)
Theorem last_byte_change_detected (bo : byte_order) (f : crcfun)
  (A : list byte) (b1 b2 : byte) (r : Z) (table : list byte) :
  valid_table f table ->
  distinct_entries (Spec.table_entries bo (width f) table) ->
  (f = Crc24 -> entries_fit24 bo table) ->
  is_register f r -> b1 <> b2 ->
  fst (call bo f (A ++ [b1]) r table) <> fst (call bo f (A ++ [b2]) r table).
Proof.
  intros Hv Hdist Hfit Hr Hb.
  rewrite !(call_valid bo f table Hv _ r Hr). cbn [fst].
  rewrite !fold_of_app. intros E. injection E as E. apply Hb.
  set (c := fold_of bo f table (sh_init (shape_of f) r) A) in *.
  assert (Hc : is_register f c)
    by (apply fold_of_register; [exact Hv|apply init_range, Hr]).
  unfold fold_of in E. cbn [fold_left] in E. unfold next in E.
  pose proof (index_range f (byte_val b1) c (byte_val_range b1) Hc) as Hi1.
  pose proof (index_range f (byte_val b2) c (byte_val_range b2) Hc) as Hi2.
  destruct (variant_entry bo f table Hv _ Hi1) as [E1 R1].
  destruct (variant_entry bo f table Hv _ Hi2) as [E2 R2].
  apply combine_conv_inj in E; [|exact R1|exact R2|].
  - rewrite E1, E2 in E. apply Hdist in E; [|exact Hi1|exact Hi2].
    apply index_inj in E. apply byte_val_inj, E.
  - intros ->. specialize (Hfit eq_refl).
    unfold entries_fit24 in Hfit. rewrite Forall_forall in Hfit.
    rewrite E1, E2. unfold Spec.lookup.
    split.
    + destruct (nth_in_or_default
                  (Z.to_nat (sh_index (shape_of Crc24) (byte_val b1) c))
                  (Spec.table_entries bo (width Crc24) table) 0)
        as [Hin | ->]; [apply Hfit, Hin|lia].
    + destruct (nth_in_or_default
                  (Z.to_nat (sh_index (shape_of Crc24) (byte_val b2) c))
                  (Spec.table_entries bo (width Crc24) table) 0)
        as [Hin | ->]; [apply Hfit, Hin|lia].
Qed.

Lemma crc24_table_distinct :
  distinct_entries
    (Spec.table_entries LittleEndian (width Crc24)
       (normal_table LittleEndian 4 24 0x864CFB)).
Proof. apply distinct_entriesb_sound. vm_compute. reflexivity. Defined.

Lemma crc24_table_fits :
  entries_fit24 LittleEndian (normal_table LittleEndian 4 24 0x864CFB).
Proof.
  unfold entries_fit24. apply Forall_forall. intros t Ht.
  apply Z.leb_le. revert t Ht. apply forallb_forall.
  vm_compute. reflexivity.
Defined.

Lemma last_byte_change_detected_witness :
  valid_table Crc24 (normal_table LittleEndian 4 24 0x864CFB)
  /\ distinct_entries
       (Spec.table_entries LittleEndian (width Crc24)
          (normal_table LittleEndian 4 24 0x864CFB))
  /\ (Crc24 = Crc24
      -> entries_fit24 LittleEndian (normal_table LittleEndian 4 24 0x864CFB))
  /\ is_register Crc24 0xB704CE /\ x39 <> x38
  /\ fst (call LittleEndian Crc24 ([x31; x32] ++ [x39]) 0xB704CE
            (normal_table LittleEndian 4 24 0x864CFB))
     <> fst (call LittleEndian Crc24 ([x31; x32] ++ [x38]) 0xB704CE
               (normal_table LittleEndian 4 24 0x864CFB)).
Proof.
  assert (Hv : valid_table Crc24 (normal_table LittleEndian 4 24 0x864CFB))
    by (vm_compute; reflexivity).
  assert (Hfit : Crc24 = Crc24
                 -> entries_fit24 LittleEndian
                      (normal_table LittleEndian 4 24 0x864CFB))
    by (intros _; exact crc24_table_fits).
  assert (Hr : is_register Crc24 0xB704CE)
    by (unfold is_register; simpl; lia).
  assert (Hb : x39 <> x38) by discriminate.
  split; [exact Hv|]. split; [exact crc24_table_distinct|].
  repeat (split; [assumption|]).
  apply (last_byte_change_detected LittleEndian Crc24 [x31; x32] x39 x38
           0xB704CE _ Hv crc24_table_distinct Hfit Hr Hb).
Defined.

(** ** The strike flags of a session *)

Lemma land_pow2 (x k : Z) :
  0 <= k -> Z.land x (2 ^ k) = if Z.testbit x k then 2 ^ k else 0.
Proof.
  intros Hk. apply Z.bits_inj'. intros n Hn.
  rewrite Z.land_spec, Z.pow2_bits_eqb by exact Hk.
  destruct (Z.eqb_spec k n) as [->|Hne].
  - destruct (Z.testbit x n); [|rewrite Z.bits_0; reflexivity].
    rewrite Z.pow2_bits_eqb, Z.eqb_refl by exact Hn. reflexivity.
  - rewrite andb_false_r.
    destruct (Z.testbit x k); [|rewrite Z.bits_0; reflexivity].
    rewrite Z.pow2_bits_eqb by exact Hk.
    symmetry. apply Z.eqb_neq. exact Hne.
Qed.

Lemma strike1_test (x : Z) :
  (Z.land x Snmp.SNMP_FLAGS_STRIKE1 =? 0) = negb (Z.testbit x 0).
Proof.
  change Snmp.SNMP_FLAGS_STRIKE1 with (2 ^ 0). rewrite land_pow2 by lia.
  destruct (Z.testbit x 0); reflexivity.
Qed.

Lemma strike2_test (x : Z) :
  (Z.land x Snmp.SNMP_FLAGS_STRIKE2 =? 0) = negb (Z.testbit x 1).
Proof.
  change Snmp.SNMP_FLAGS_STRIKE2 with (2 ^ 1). rewrite land_pow2 by lia.
  destruct (Z.testbit x 1); reflexivity.
Qed.

Lemma lor_pow2_bits (x k n : Z) :
  0 <= k -> 0 <= n ->
  Z.testbit (Z.lor x (2 ^ k)) n = Z.testbit x n || (k =? n).
Proof.
  intros Hk Hn. rewrite Z.lor_spec, Z.pow2_bits_eqb by exact Hk. reflexivity.
Qed.

(** The three cases of [SET_SNMP_STRIKE_FLAGS]. *)
Lemma SET_dead (x : Z) :
  Z.testbit x 1 = true -> Snmp.SET_SNMP_STRIKE_FLAGS x = (1, x).
Proof.
  intros H. unfold Snmp.SET_SNMP_STRIKE_FLAGS.
  rewrite strike2_test, H. reflexivity.
Qed.

Lemma SET_second (x : Z) :
  Z.testbit x 1 = false -> Z.testbit x 0 = true ->
  Snmp.SET_SNMP_STRIKE_FLAGS x = (0, Z.lor x Snmp.SNMP_FLAGS_STRIKE2).
Proof.
  intros H1 H0. unfold Snmp.SET_SNMP_STRIKE_FLAGS.
  rewrite strike2_test, strike1_test, H1, H0. reflexivity.
Qed.

Lemma SET_first (x : Z) :
  Z.testbit x 1 = false -> Z.testbit x 0 = false ->
  Snmp.SET_SNMP_STRIKE_FLAGS x = (0, Z.lor x Snmp.SNMP_FLAGS_STRIKE1).
Proof.
  intros H1 H0. unfold Snmp.SET_SNMP_STRIKE_FLAGS.
  rewrite strike2_test, strike1_test, H1, H0. reflexivity.
Qed.

Lemma strikes_step (n : nat) (x v x' : Z) :
  Snmp.SET_SNMP_STRIKE_FLAGS x = (v, x') ->
  Snmp.strikes (S n) x
  = (v :: fst (Snmp.strikes n x'), snd (Snmp.strikes n x')).
Proof.
  intros E. cbn [Snmp.strikes]. rewrite E.
  destruct (Snmp.strikes n x'). reflexivity.
Qed.

Lemma strikes_dead (n : nat) (x : Z) :
  Z.testbit x 1 = true -> Snmp.strikes n x = (repeat 1 n, x).
Proof.
  intros H. induction n as [|n IH]; [reflexivity|].
  cbn [Snmp.strikes repeat]. rewrite (SET_dead x H), IH. reflexivity.
Qed.

Lemma CLEAR_bits (x n : Z) :
  Snmp.is_ulong x -> 0 <= n ->
  Z.testbit (Snmp.CLEAR_SNMP_STRIKE_FLAGS x) n
  = Z.testbit x n && (2 <=? n).
Proof.
  intros Hx Hn. unfold Snmp.CLEAR_SNMP_STRIKE_FLAGS, Snmp.ULONG.
  change (Z.lor Snmp.SNMP_FLAGS_STRIKE2 Snmp.SNMP_FLAGS_STRIKE1)
    with (Z.ones 2).
  unfold Snmp.is_ulong in Hx. unfold long_bits in *.
  rewrite Z.land_spec, Z.testbit_mod_pow2 by lia.
  destruct (Z.ltb_spec n 64) as [Hlt|Hge].
  - rewrite Z.lnot_spec, Z.testbit_ones_nonneg by lia.
    destruct (Z.ltb_spec n 2), (Z.leb_spec 2 n); try lia; reflexivity.
  - rewrite (Z.bits_above_log2 x n); [reflexivity|lia|].
    destruct (Z.eq_dec x 0) as [->|Hne]; [simpl; lia|].
    apply Z.log2_lt_pow2; [lia|].
    assert (2 ^ 64 <= 2 ^ n) by (apply Z.pow_le_mono_r; lia). lia.
Qed.

(** After [CLEAR_SNMP_STRIKE_FLAGS], the first two uses of
    [SET_SNMP_STRIKE_FLAGS] yield 0, and the third and every later one
    yields 1 (the session is to be regarded as dead); both strike bits are
    set from then on. *)
Theorem three_strikes (x : Z) (n : nat) :
  Snmp.is_ulong x ->
  Snmp.strikes (S (S (S n))) (Snmp.CLEAR_SNMP_STRIKE_FLAGS x)
  = (0 :: 0 :: repeat 1 (S n),
     Z.lor (Snmp.CLEAR_SNMP_STRIKE_FLAGS x)
       (Z.lor Snmp.SNMP_FLAGS_STRIKE2 Snmp.SNMP_FLAGS_STRIKE1)).
Proof.
  intros Hx. set (y := Snmp.CLEAR_SNMP_STRIKE_FLAGS x).
  assert (H0 : Z.testbit y 0 = false)
    by (subst y; rewrite CLEAR_bits by (assumption || lia); apply andb_false_r).
  assert (H1 : Z.testbit y 1 = false)
    by (subst y; rewrite CLEAR_bits by (assumption || lia); apply andb_false_r).
  assert (E : Z.lor (Z.lor y Snmp.SNMP_FLAGS_STRIKE1) Snmp.SNMP_FLAGS_STRIKE2
              = Z.lor y (Z.lor Snmp.SNMP_FLAGS_STRIKE2 Snmp.SNMP_FLAGS_STRIKE1)).
  { rewrite <- Z.lor_assoc. f_equal. }
  rewrite (strikes_step _ _ _ _ (SET_first y H1 H0)).
  rewrite (strikes_step _ (Z.lor y Snmp.SNMP_FLAGS_STRIKE1) 0
             (Z.lor (Z.lor y Snmp.SNMP_FLAGS_STRIKE1) Snmp.SNMP_FLAGS_STRIKE2)).
  - rewrite E. rewrite strikes_dead; [reflexivity|].
    change (Z.lor Snmp.SNMP_FLAGS_STRIKE2 Snmp.SNMP_FLAGS_STRIKE1)
      with (Z.lor (2 ^ 1) 1).
    rewrite Z.lor_assoc, Z.lor_spec, lor_pow2_bits by lia.
    rewrite Z.eqb_refl. rewrite orb_true_r. reflexivity.
  - apply SET_second.
    + change Snmp.SNMP_FLAGS_STRIKE1 with (2 ^ 0).
      rewrite lor_pow2_bits, H1 by lia. reflexivity.
    + change Snmp.SNMP_FLAGS_STRIKE1 with (2 ^ 0).
      rewrite lor_pow2_bits by lia. apply orb_true_r.
Qed.

Lemma three_strikes_witness :
  Snmp.is_ulong 0x1A3
  /\ Snmp.strikes 5 (Snmp.CLEAR_SNMP_STRIKE_FLAGS 0x1A3)
     = ([0; 0; 1; 1; 1], 0x1A3).
Proof.
  assert (H : Snmp.is_ulong 0x1A3)
    by (unfold Snmp.is_ulong, long_bits; lia).
  split; [exact H|]. apply (three_strikes 0x1A3 2 H).
Defined.

Lemma land_lor_absorb (a b : Z) : Z.land a (Z.lor a b) = a.
Proof.
  apply Z.bits_inj'. intros n _. rewrite Z.land_spec, Z.lor_spec.
  destruct (Z.testbit a n), (Z.testbit b n); reflexivity.
Qed.

Lemma SET_bits (x n : Z) :
  0 <= n -> 2 <= n ->
  Z.testbit (snd (Snmp.SET_SNMP_STRIKE_FLAGS x)) n = Z.testbit x n.
Proof.
  intros Hn H2. unfold Snmp.SET_SNMP_STRIKE_FLAGS.
  destruct (negb (Z.land x Snmp.SNMP_FLAGS_STRIKE2 =? 0)); [reflexivity|].
  destruct (negb (Z.land x Snmp.SNMP_FLAGS_STRIKE1 =? 0)); cbn [snd].
  - change Snmp.SNMP_FLAGS_STRIKE2 with (2 ^ 1).
    rewrite lor_pow2_bits by lia.
    destruct (Z.eqb_spec 1 n); [lia|apply orb_false_r].
  - change Snmp.SNMP_FLAGS_STRIKE1 with (2 ^ 0).
    rewrite lor_pow2_bits by lia.
    destruct (Z.eqb_spec 0 n); [lia|apply orb_false_r].
Qed.

Lemma land_disjoint_bits (a b mask : Z) :
  Z.land mask 3 = 0 ->
  (forall n, 2 <= n -> Z.testbit a n = Z.testbit b n) ->
  Z.land a mask = Z.land b mask.
Proof.
  intros Hmask Hbits. apply Z.bits_inj'. intros n Hn.
  rewrite !Z.land_spec.
  destruct (Z.leb_spec 2 n) as [H2|H2].
  - rewrite (Hbits n H2). reflexivity.
  - assert (Hm : Z.testbit mask n = false).
    { assert (E : Z.testbit (Z.land mask 3) n = false)
        by (rewrite Hmask; apply Z.bits_0).
      rewrite Z.land_spec in E. change 3 with (Z.ones 2) in E.
      rewrite Z.testbit_ones_nonneg in E by lia.
      destruct (Z.ltb_spec n 2); [|lia].
      rewrite andb_true_r in E. exact E. }
    rewrite Hm, !andb_false_r. reflexivity.
Qed.

Lemma ulong_of_bits (x y : Z) :
  Snmp.is_ulong x -> 0 <= y ->
  (forall n, 64 <= n -> Z.testbit y n = Z.testbit x n) ->
  Snmp.is_ulong y.
Proof.
  unfold Snmp.is_ulong, long_bits. intros Hx Hy Hbits.
  split; [exact Hy|].
  destruct (Z.eq_dec y 0) as [->|Hne]; [lia|].
  apply Z.log2_lt_pow2; [lia|].
  destruct (Z.lt_ge_cases (Z.log2 y) 64) as [Hlt|Hge]; [exact Hlt|].
  exfalso.
  assert (Hb : Z.testbit y (Z.log2 y) = true) by (apply Z.bit_log2; lia).
  rewrite (Hbits _ Hge) in Hb.
  rewrite (Z.bits_above_log2 x (Z.log2 y)) in Hb; [discriminate|lia|].
  destruct (Z.eq_dec x 0) as [->|Hx0]; [simpl; lia|].
  assert (Z.log2 x < 64) by (apply Z.log2_lt_pow2; lia). lia.
Qed.

(** The two macros touch the two strike bits only.  For flags of the type
    [u_long] and every mask disjoint from the strike bits (every other
    flag of the header is one), the flags under the mask are the same
    before and after [SET_SNMP_STRIKE_FLAGS] and before and after
    [CLEAR_SNMP_STRIKE_FLAGS]; the flags stay within [u_long];
    [SET_SNMP_STRIKE_FLAGS] clears no bit, and after
    [CLEAR_SNMP_STRIKE_FLAGS] both strike bits are zero. *)
Theorem strike_macros_keep_other_flags (x mask : Z) :
  Snmp.is_ulong x -> Z.land mask 3 = 0 ->
  Z.land (snd (Snmp.SET_SNMP_STRIKE_FLAGS x)) mask = Z.land x mask
  /\ Z.land (Snmp.CLEAR_SNMP_STRIKE_FLAGS x) mask = Z.land x mask
  /\ Snmp.is_ulong (snd (Snmp.SET_SNMP_STRIKE_FLAGS x))
  /\ Snmp.is_ulong (Snmp.CLEAR_SNMP_STRIKE_FLAGS x)
  /\ Z.land x (snd (Snmp.SET_SNMP_STRIKE_FLAGS x)) = x
  /\ Z.land (Snmp.CLEAR_SNMP_STRIKE_FLAGS x)
       (Z.lor Snmp.SNMP_FLAGS_STRIKE2 Snmp.SNMP_FLAGS_STRIKE1) = 0.
Proof.
  intros Hx Hmask.
  assert (Hx0 : 0 <= x) by (destruct Hx; assumption).
  assert (Hset0 : 0 <= snd (Snmp.SET_SNMP_STRIKE_FLAGS x)).
  { unfold Snmp.SET_SNMP_STRIKE_FLAGS.
    destruct (negb (Z.land x Snmp.SNMP_FLAGS_STRIKE2 =? 0)); [exact Hx0|].
    destruct (negb (Z.land x Snmp.SNMP_FLAGS_STRIKE1 =? 0)); cbn [snd];
      apply Z.lor_nonneg; split; (exact Hx0 || (vm_compute; discriminate)). }
  assert (Hclr0 : 0 <= Snmp.CLEAR_SNMP_STRIKE_FLAGS x).
  { unfold Snmp.CLEAR_SNMP_STRIKE_FLAGS. apply Z.land_nonneg. left.
    exact Hx0. }
  repeat split.
  - apply land_disjoint_bits; [exact Hmask|].
    intros n Hn. apply SET_bits; lia.
  - apply land_disjoint_bits; [exact Hmask|].
    intros n Hn. rewrite CLEAR_bits by (assumption || lia).
    destruct (Z.leb_spec 2 n); [apply andb_true_r|lia].
  - exact Hset0.
  - apply (ulong_of_bits x _ Hx Hset0). intros n Hn. apply SET_bits; lia.
  - exact Hclr0.
  - apply (ulong_of_bits x _ Hx Hclr0). intros n Hn.
    rewrite CLEAR_bits by (assumption || lia).
    destruct (Z.leb_spec 2 n); [apply andb_true_r|lia].
  - unfold Snmp.SET_SNMP_STRIKE_FLAGS.
    destruct (negb (Z.land x Snmp.SNMP_FLAGS_STRIKE2 =? 0));
      [apply Z.land_diag|].
    destruct (negb (Z.land x Snmp.SNMP_FLAGS_STRIKE1 =? 0)); cbn [snd];
      apply land_lor_absorb.
  - apply Z.bits_inj'. intros n Hn.
    rewrite Z.land_spec, Z.bits_0, CLEAR_bits by (assumption || lia).
    change (Z.lor Snmp.SNMP_FLAGS_STRIKE2 Snmp.SNMP_FLAGS_STRIKE1)
      with (Z.ones 2).
    rewrite Z.testbit_ones_nonneg by lia.
    destruct (Z.leb_spec 2 n), (Z.ltb_spec n 2); try lia;
      rewrite ?andb_false_r; reflexivity.
Qed.

Lemma strike_macros_keep_other_flags_witness :
  Snmp.is_ulong 0x1A1 /\ Z.land Snmp.SNMP_FLAGS_DONT_PROBE 3 = 0
  /\ Z.land (snd (Snmp.SET_SNMP_STRIKE_FLAGS 0x1A1)) Snmp.SNMP_FLAGS_DONT_PROBE
     = Z.land 0x1A1 Snmp.SNMP_FLAGS_DONT_PROBE.
Proof.
  assert (Hx : Snmp.is_ulong 0x1A1)
    by (unfold Snmp.is_ulong, long_bits; lia).
  assert (Hm : Z.land Snmp.SNMP_FLAGS_DONT_PROBE 3 = 0) by reflexivity.
  split; [exact Hx|]. split; [exact Hm|].
  apply (strike_macros_keep_other_flags 0x1A1 Snmp.SNMP_FLAGS_DONT_PROBE
           Hx Hm).
Defined.

(** From any flags, whatever their strike bits, at most the first two of
    a run of uses of [SET_SNMP_STRIKE_FLAGS] yield 0: the third and every
    later one yields 1, a use that yields 1 leaves the flags as they are,
    and no use yields anything but 0 or 1. *)
Theorem strikes_run_out (x : Z) (n : nat) :
  exists a b x',
    Snmp.strikes (S (S (S n))) x = (a :: b :: repeat 1 (S n), x')
    /\ (a = 0 \/ a = 1) /\ (b = 0 \/ b = 1) /\ a <= b
    /\ Z.land x' Snmp.SNMP_FLAGS_STRIKE2 <> 0
    /\ (fst (Snmp.SET_SNMP_STRIKE_FLAGS x) = 1 ->
        snd (Snmp.SET_SNMP_STRIKE_FLAGS x) = x).
Proof.
  assert (Hdead : forall z, Z.testbit z 1 = true ->
                    Z.land z Snmp.SNMP_FLAGS_STRIKE2 <> 0).
  { intros z Hz E. apply Z.eqb_eq in E. rewrite strike2_test, Hz in E.
    discriminate E. }
  assert (Hset2 : forall z, Z.testbit (Z.lor z Snmp.SNMP_FLAGS_STRIKE2) 1
                            = true).
  { intros z. change Snmp.SNMP_FLAGS_STRIKE2 with (2 ^ 1).
    rewrite lor_pow2_bits by lia. apply orb_true_r. }
  destruct (Z.testbit x 1) eqn:H1.
  - (* dead already *)
    exists 1, 1, x. rewrite (strikes_dead _ x H1), (SET_dead x H1).
    repeat split; auto; lia.
  - destruct (Z.testbit x 0) eqn:H0.
    + (* one strike left *)
      exists 0, 1, (Z.lor x Snmp.SNMP_FLAGS_STRIKE2).
      rewrite (strikes_step _ _ _ _ (SET_second x H1 H0)).
      rewrite (strikes_dead _ _ (Hset2 x)). rewrite (SET_second x H1 H0).
      cbn [fst snd repeat]. repeat split; auto; lia.
    + (* two strikes left *)
      assert (H1' : Z.testbit (Z.lor x Snmp.SNMP_FLAGS_STRIKE1) 1 = false).
      { change Snmp.SNMP_FLAGS_STRIKE1 with (2 ^ 0).
        rewrite lor_pow2_bits, H1 by lia. reflexivity. }
      assert (H0' : Z.testbit (Z.lor x Snmp.SNMP_FLAGS_STRIKE1) 0 = true).
      { change Snmp.SNMP_FLAGS_STRIKE1 with (2 ^ 0).
        rewrite lor_pow2_bits by lia. apply orb_true_r. }
      exists 0, 0,
        (Z.lor (Z.lor x Snmp.SNMP_FLAGS_STRIKE1) Snmp.SNMP_FLAGS_STRIKE2).
      rewrite (strikes_step _ _ _ _ (SET_first x H1 H0)).
      rewrite (strikes_step _ _ _ _ (SET_second _ H1' H0')).
      rewrite (strikes_dead _ _ (Hset2 _)). rewrite (SET_first x H1 H0).
      cbn [fst snd repeat]. repeat split; auto; lia.
Qed.

(** ** The size of [snmp_ipaddr] *)

(** On a machine where [unsigned short] is no larger than [long], twice
    the size of [long] is at most 92 bytes and 92 fits [size_t], the
    members of [snmp_ipaddr] take 92 bytes ([_UCD_SS_MAXSIZE]) together;
    [sa_family] and [sa_data] fill one [long], so that [sa_align] starts
    at a multiple of its size; and [sa_pad2] takes 92 bytes less two
    [long]. *)
Theorem snmp_ipaddr_size (sizeof_ushort sizeof_long size_bits : Z) :
  0 <= sizeof_ushort <= sizeof_long -> 2 * sizeof_long <= 92 ->
  92 < 2 ^ size_bits ->
  fold_right Z.add 0
    (Snmp.snmp_ipaddr_members sizeof_ushort sizeof_long size_bits)
  = Snmp._UCD_SS_MAXSIZE
  /\ sizeof_ushort + Snmp._UCD_SS_PAD1SIZE sizeof_ushort sizeof_long size_bits
     = Snmp._UCD_SS_ALIGNSIZE sizeof_long
  /\ Snmp._UCD_SS_PAD2SIZE sizeof_ushort sizeof_long size_bits
     = 92 - 2 * sizeof_long.
Proof.
  intros Hs Hl Hb.
  assert (E1 : Snmp._UCD_SS_PAD1SIZE sizeof_ushort sizeof_long size_bits
               = sizeof_long - sizeof_ushort).
  { unfold Snmp._UCD_SS_PAD1SIZE, Snmp._UCD_SS_ALIGNSIZE, Snmp.SIZE_T.
    apply Z.mod_small. lia. }
  assert (E2 : Snmp._UCD_SS_PAD2SIZE sizeof_ushort sizeof_long size_bits
               = 92 - 2 * sizeof_long).
  { unfold Snmp._UCD_SS_PAD2SIZE. rewrite E1.
    unfold Snmp._UCD_SS_ALIGNSIZE, Snmp._UCD_SS_MAXSIZE, Snmp.SIZE_T.
    replace (sizeof_ushort + (sizeof_long - sizeof_ushort))
      with sizeof_long by lia.
    rewrite (Z.mod_small sizeof_long) by lia.
    rewrite (Z.mod_small (sizeof_long + sizeof_long)) by lia.
    rewrite Z.mod_small by lia. lia. }
  unfold Snmp.snmp_ipaddr_members. cbn [fold_right].
  rewrite E1, E2. unfold Snmp._UCD_SS_MAXSIZE, Snmp._UCD_SS_ALIGNSIZE.
  repeat split; lia.
Qed.

Lemma snmp_ipaddr_size_witness :
  0 <= 2 <= 8 /\ 2 * 8 <= 92 /\ 92 < 2 ^ 64
  /\ fold_right Z.add 0 (Snmp.snmp_ipaddr_members 2 8 64)
     = Snmp._UCD_SS_MAXSIZE.
Proof.
  assert (H1 : 0 <= 2 <= 8) by lia.
  assert (H2 : 2 * 8 <= 92) by lia.
  assert (H3 : 92 < 2 ^ 64) by lia.
  repeat (split; [assumption|]).
  apply (snmp_ipaddr_size 2 8 64 H1 H2 H3).
Defined.

(** ** Known check values

    The registers after the digits "123456789" for tables of well-known
    polynomials, in both byte orders of the machine. *)

Example check_crc8 :
  fst (_crc8 LittleEndian check_input 0 (normal_table LittleEndian 1 8 0x07))
  = Return 0xF4.
Proof. vm_compute. reflexivity. Qed.

Example check_crc16_xmodem :
  fst (_crc16 BigEndian check_input 0 (normal_table BigEndian 2 16 0x1021))
  = Return 0x31C3.
Proof. vm_compute. reflexivity. Qed.

Example check_crc16_arc :
  fst (_crc16r LittleEndian check_input 0
         (reflected_table LittleEndian 2 0xA001))
  = Return 0xBB3D.
Proof. vm_compute. reflexivity. Qed.

Example check_crc24_openpgp :
  fst (_crc24 LittleEndian check_input 0xB704CE
         (normal_table LittleEndian 4 24 0x864CFB))
  = Return 0x21CF02.
Proof. vm_compute. reflexivity. Qed.

Example check_crc24_ble :
  fst (_crc24r BigEndian check_input 0xAAAAAA
         (reflected_table BigEndian 4 0xDA6000))
  = Return 0xC25A56.
Proof. vm_compute. reflexivity. Qed.

Example check_crc32_bzip2 :
  fst (_crc32 LittleEndian check_input 0xFFFFFFFF
         (normal_table LittleEndian 4 32 0x04C11DB7))
  = Return (Z.lxor 0xFC891918 0xFFFFFFFF).
Proof. vm_compute. reflexivity. Qed.

Example check_crc32 :
  fst (_crc32r LittleEndian check_input 0xFFFFFFFF
         (reflected_table LittleEndian 4 0xEDB88320))
  = Return (Z.lxor 0xCBF43926 0xFFFFFFFF).
Proof. vm_compute. reflexivity. Qed.

Example check_crc64_ecma :
  fst (_crc64 BigEndian check_input 0
         (normal_table BigEndian 8 64 0x42F0E1EBA9EA3693))
  = Return 0x6C40DF5F0B497347.
Proof. vm_compute. reflexivity. Qed.

Example check_crc64_xz :
  fst (_crc64r LittleEndian check_input 0xFFFFFFFFFFFFFFFF
         (reflected_table LittleEndian 8 0xC96C5795D7870F42))
  = Return (Z.lxor 0x995DC9BBDF1939FA 0xFFFFFFFFFFFFFFFF).
Proof. vm_compute. reflexivity. Qed.

(** The trace of a short call: each data byte is read once, in order, and
    is followed by one table read. *)
Example trace_crc16 :
  snd (_crc16 LittleEndian [x31; x32] 0
         (normal_table LittleEndian 2 16 0x1021))
  = [ReadData 0; ReadTable 0x31; ReadData 1; ReadTable 0x14].
Proof. vm_compute. reflexivity. Qed.
